(** * zap-pm: registry client, cache layer, download manager, parser
      and commands

    A shallow embedding of zap-pm (packages [registry], [downloader],
    [errors], [parser] and the commands of [cli]) together with the
    properties its specification states about it and further properties
    of the code.

    Layout of the development:
    - [GoStrings], [Filepath], [Sha1], [regexp]: the pieces of the Go
      standard library the code calls on byte strings, written out;
    - [Platform]: the interface to what stays outside the program
      (the semver library, the JSON codec, the HTTP servers, the
      operating system's failures);
    - the registry client ([fetchWithRetry], [resolveVersion],
      [GetPackageVersion], [GetLatestVersion]), the cache layer
      ([checkCache]), the download manager ([downloadFile],
      [DownloadPackage]) and the worker pool of [DownloadDependencies];
    - the progress bar, the parser of package.json with its validation,
      and the commands download, verify and init;
    - a reference platform covering the numeric fragment of semantic
      versions, used to run the model on the scenarios of the test suite;
    - the theorems. *)

From Stdlib Require Import ZArith Lia Ascii String.
From stdpp Require Import base tactics option list strings pretty gmap sorting relations.

Local Open Scope Z_scope.
Local Open Scope string_scope.
Local Open Scope list_scope.

(* ===================================================================== *)
(** ** Byte strings as Go sees them *)
(* ===================================================================== *)

Module GoStrings.

(** A Go [string] is a sequence of bytes; [String.string] is the same. *)

Definition bytes_of (codes : list nat) : string :=
  string_of_list_ascii (map ascii_of_nat codes).

(** [strings.HasPrefix]. *)
Definition HasPrefix (s p : string) : bool := String.prefix p s.

(** The UTF-8 encodings of the code points for which [unicode.IsSpace]
    holds: the six ASCII ones, U+0085, U+00A0, U+1680, U+2000..U+200A,
    U+2028, U+2029, U+202F, U+205F and U+3000. *)
Definition space_encodings : list (list nat) :=
  [ [9]; [10]; [11]; [12]; [13]; [32];
    [194; 133]; [194; 160];
    [225; 154; 128];
    [226; 128; 128]; [226; 128; 129]; [226; 128; 130]; [226; 128; 131];
    [226; 128; 132]; [226; 128; 133]; [226; 128; 134]; [226; 128; 135];
    [226; 128; 136]; [226; 128; 137]; [226; 128; 138];
    [226; 128; 168]; [226; 128; 169]; [226; 128; 175];
    [226; 129; 159];
    [227; 128; 128] ]%nat.

Fixpoint strip_prefix (p s : list ascii) : option (list ascii) :=
  match p, s with
  | [], _ => Some s
  | a :: p', b :: s' => if decide (a = b) then strip_prefix p' s' else None
  | _ :: _, [] => None
  end.

(** One decoded rune is dropped when it is a space: the first encoding of
    [encs] that is a prefix of [s] is removed. *)
Fixpoint drop_space (encs : list (list ascii)) (s : list ascii) : option (list ascii) :=
  match encs with
  | [] => None
  | p :: encs' =>
      match strip_prefix p s with
      | Some s' => Some s'
      | None => drop_space encs' s
      end
  end.

Fixpoint trim_left (encs : list (list ascii)) (fuel : nat) (s : list ascii) : list ascii :=
  match fuel with
  | O => s
  | S fuel' =>
      match drop_space encs s with
      | Some s' => trim_left encs fuel' s'
      | None => s
      end
  end.

Definition space_prefixes : list (list ascii) :=
  map (map ascii_of_nat) space_encodings.
Definition space_suffixes_rev : list (list ascii) :=
  map (fun p => rev (map ascii_of_nat p)) space_encodings.

(** [strings.TrimSpace]: leading runes are decoded forwards and trailing
    runes backwards; a space is dropped, anything else (an invalid byte
    included) stops the scan. *)
Definition TrimSpace (s : string) : string :=
  let l := list_ascii_of_string s in
  let l1 := trim_left space_prefixes (length l) l in
  let l2 := trim_left space_suffixes_rev (length l1) (rev l1) in
  string_of_list_ascii (rev l2).

(** [strings.Join]. *)
Fixpoint Join (elems : list string) (sep : string) : string :=
  match elems with
  | [] => ""
  | [e] => e
  | e :: rest => e +:+ sep +:+ Join rest sep
  end.

(** [strings.Contains]. *)
Definition Contains (s sub : string) : Prop :=
  exists pre post, s = pre +:+ sub +:+ post.

(** [strings.Split(s, sep)] for a separator of one byte: the pieces
    between the occurrences of [sep], the empty ones too; a string
    without [sep] is the one piece. *)
Fixpoint Split (s : string) (sep : ascii) : list string :=
  match s with
  | "" => [""]
  | String a s' =>
      if decide (a = sep) then "" :: Split s' sep
      else match Split s' sep with
           | piece :: pieces => String a piece :: pieces
           | [] => [String a ""]
           end
  end.

End GoStrings.

(* ===================================================================== *)
(** ** path/filepath *)
(* ===================================================================== *)

Module Filepath.

Definition nonempty (s : string) : bool :=
  match s with "" => false | _ => true end.

(** [filepath.Join]: empty elements are ignored and the rest are joined
    with the separator.  The lexical clean-up ([filepath.Clean]) that
    follows in Go is not modelled. *)
Definition Join (elems : list string) : string :=
  GoStrings.Join (List.filter nonempty elems) "/".

Fixpoint last_slash (s : list ascii) (i : nat) (found : option nat) : option nat :=
  match s with
  | [] => found
  | c :: s' => last_slash s' (S i) (if decide (c = "/"%char) then Some i else found)
  end.

(** [filepath.Dir]: everything before the last separator. *)
Definition Dir (p : string) : string :=
  let l := list_ascii_of_string p in
  match last_slash l 0%nat None with
  | None => "."
  | Some O => "/"
  | Some i => string_of_list_ascii (take i l)
  end.




End Filepath.

(* ===================================================================== *)
(** ** crypto/sha1 and encoding/hex *)
(* ===================================================================== *)

Module Sha1.

Definition w32 (x : Z) : Z := x mod 2 ^ 32.
Definition add32 (x y : Z) : Z := w32 (x + y).
Definition rotl (n x : Z) : Z :=
  Z.lor (w32 (Z.shiftl x n)) (Z.shiftr x (32 - n)).
Definition not32 (x : Z) : Z := Z.lxor x (2 ^ 32 - 1).

Definition byte_of (a : ascii) : Z := Z.of_nat (nat_of_ascii a).

Fixpoint be_bytes (n : nat) (x : Z) : list Z :=
  match n with
  | O => []
  | S n' => be_bytes n' (Z.shiftr x 8) ++ [Z.land x 255]
  end.

(** Message padding: a one bit, zeros up to 56 modulo 64, and the bit
    length as a 64-bit big-endian integer. *)
Definition pad (msg : list Z) : list Z :=
  let len := Z.of_nat (length msg) in
  let zeros := Z.to_nat ((55 - len) mod 64) in
  msg ++ [128] ++ replicate zeros 0 ++ be_bytes 8 (8 * len).

Fixpoint be_word (bs : list Z) (acc : Z) : Z :=
  match bs with
  | [] => acc
  | b :: bs' => be_word bs' (Z.lor (Z.shiftl acc 8) b)
  end.

Fixpoint words_of (n : nat) (bs : list Z) : list Z :=
  match n with
  | O => []
  | S n' => be_word (take 4 bs) 0 :: words_of n' (drop 4 bs)
  end.

(** The message schedule, newest word first. *)
Fixpoint schedule (n : nat) (ws : list Z) : list Z :=
  match n with
  | O => ws
  | S n' =>
      let w := rotl 1 (Z.lxor (Z.lxor (nth 2 ws 0) (nth 7 ws 0))
                              (Z.lxor (nth 13 ws 0) (nth 15 ws 0))) in
      schedule n' (w :: ws)
  end.

Record state := State { ha : Z; hb : Z; hc : Z; hd : Z; he : Z }.

Definition round (t : nat) (st : state) (w : Z) : state :=
  let '(State a b c d e) := st in
  let '(f, k) :=
    if decide (t < 20)%nat then (Z.lor (Z.land b c) (Z.land (not32 b) d), 1518500249)
    else if decide (t < 40)%nat then (Z.lxor (Z.lxor b c) d, 1859775393)
    else if decide (t < 60)%nat then
      (Z.lor (Z.lor (Z.land b c) (Z.land b d)) (Z.land c d), 2400959708)
    else (Z.lxor (Z.lxor b c) d, 3395469782) in
  let temp := add32 (add32 (add32 (add32 (rotl 5 a) f) e) k) w in
  State temp a (rotl 30 b) c d.

Fixpoint rounds (t : nat) (ws : list Z) (st : state) : state :=
  match ws with
  | [] => st
  | w :: ws' => rounds (S t) ws' (round t st w)
  end.

Definition block (st : state) (bs : list Z) : state :=
  let ws := rev (schedule 64 (rev (words_of 16 bs))) in
  let '(State a b c d e) := rounds 0 ws st in
  State (add32 (ha st) a) (add32 (hb st) b) (add32 (hc st) c)
        (add32 (hd st) d) (add32 (he st) e).

Fixpoint blocks (n : nat) (bs : list Z) (st : state) : state :=
  match n with
  | O => st
  | S n' => blocks n' (drop 64 bs) (block st (take 64 bs))
  end.

Definition init : state :=
  State 1732584193 4023233417 2562383102 271733878 3285377520.

Definition sum (msg : list Z) : list Z :=
  let p := pad msg in
  let '(State a b c d e) := blocks (length p / 64) p init in
  be_bytes 4 a ++ be_bytes 4 b ++ be_bytes 4 c ++ be_bytes 4 d ++ be_bytes 4 e.

Definition hex_digit (x : Z) : ascii :=
  ascii_of_nat (Z.to_nat (if decide (x < 10) then 48 + x else 87 + x)).

(** [hex.EncodeToString]. *)
Fixpoint hex (bs : list Z) : string :=
  match bs with
  | [] => ""
  | b :: bs' => String (hex_digit (Z.shiftr b 4)) (String (hex_digit (Z.land b 15)) (hex bs'))
  end.

End Sha1.

(** [hex.EncodeToString(sha1.Sum(content))], the digest both the cache
    layer and the downloader compare with [dist.shasum]. *)
Definition sha1_hex (content : string) : string :=
  Sha1.hex (Sha1.sum (map Sha1.byte_of (list_ascii_of_string content))).

(* ===================================================================== *)
(** ** Errors (package [errors] and Go's [error] values) *)
(* ===================================================================== *)

Module errors.

(** Go [error] values as the program builds them:
    - [ErrorString]: [fmt.Errorf] without [%w], and the errors of the
      libraries and of the operating system;
    - [WrapError prefix err]: [fmt.Errorf(prefix + "%w", err)];
    - [ZapError]: the repository's own [*errors.ZapError]. *)
#[local] Set Warnings "-register-all".
Inductive error : Type :=
| ErrorString (msg : string)
| WrapError (prefix : string) (err : error)
| ZapError (Type_ : string) (Message : string) (Err : option error).

(** The [Error()] method. *)
Fixpoint Error (e : error) : string :=
  match e with
  | ErrorString msg => msg
  | WrapError prefix err => prefix +:+ Error err
  | ZapError t m None => t +:+ ": " +:+ m
  | ZapError t m (Some err) => t +:+ ": " +:+ m +:+ " (" +:+ Error err +:+ ")"
  end.

(** [errors.New]. *)
Definition New (errType message : string) (err : option error) : error :=
  ZapError errType message err.

(** [errors.Wrap], on a non-nil error. *)
Definition Wrap (err : error) (message : string) : error :=
  match err with
  | ZapError t m inner => ZapError t (message +:+ ": " +:+ m) inner
  | _ => ZapError "unknown" message (Some err)
  end.

(** A call that returns [(value, error)] with exactly one of them set. *)
Inductive result (A : Type) : Type :=
| Ok (a : A)
| Err (e : error).
Arguments Ok {A} a.
Arguments Err {A} e.

Definition is_Ok {A} (r : result A) : bool :=
  match r with Ok _ => true | Err _ => false end.

End errors.
Import errors.

(* ===================================================================== *)
(** ** The world the program acts on *)
(* ===================================================================== *)

(** An HTTP request, by the client that sends it: the registry client's
    [httpClient.Get] or the download manager's [client.Do]. *)
Inductive Request : Type :=
| RegistryGet (url : string)
| TarballGet (url : string).

Definition is_tarball_request (r : Request) : bool :=
  match r with TarballGet _ => true | RegistryGet _ => false end.

(** What comes back: no response at all, or a response whose body
    delivers [Body] and then ends, possibly with a read error. *)
Inductive Reply : Type :=
| TransportError (err : error)
| Response (StatusCode : Z) (Status : string) (Body : string) (BodyErr : option error).

(** The cache directory (regular files by path), the requests sent so
    far (oldest first) and the time spent sleeping between retries. *)
Record World : Type := mkWorld {
  fs : gmap string string;
  requests : list Request;
  slept : Z
}.

Definition tarball_requests (w : World) : list Request :=
  List.filter is_tarball_request (requests w).

(** Operations of package [os] whose failure the code handles. *)
Inductive OsOp : Type :=
| OpMkdirAll (path : string)
| OpCreate (path : string)
| OpWrite (path : string)
| OpReadFile (path : string).

(** Stateful, fallible code: the world is threaded through, and an error
    keeps the effects made before it. *)
Definition IO (A : Type) : Type := World -> result A * World.

Definition ret {A} (a : A) : IO A := fun w => (Ok a, w).
Definition fail {A} (e : error) : IO A := fun w => (Err e, w).
Definition bind {A B} (m : IO A) (k : A -> IO B) : IO B :=
  fun w => match m w with
           | (Ok a, w') => k a w'
           | (Err e, w') => (Err e, w')
           end.
(** [if err != nil { return fmt.Errorf(prefix + "%w", err) }] *)
Definition wrapping {A} (prefix : string) (m : IO A) : IO A :=
  fun w => match m w with
           | (Ok a, w') => (Ok a, w')
           | (Err e, w') => (Err (WrapError prefix e), w')
           end.

Notation "'let*' x := m 'in' k" := (bind m (fun x => k))
  (at level 10, x name, m at level 100, k at level 200, only parsing).

Definition record_request (r : Request) (w : World) : World :=
  mkWorld (fs w) (requests w ++ [r]) (slept w).

(** A product of two [int64] wraps around. *)
Definition wrap64 (x : Z) : Z := (x + 2 ^ 63) mod 2 ^ 64 - 2 ^ 63.

(** [time.Sleep]: a duration that is not positive returns at once. *)
Definition time_Sleep (d : Z) (w : World) : World :=
  if decide (0 < d) then mkWorld (fs w) (requests w) (slept w + d) else w.

(* ===================================================================== *)
(** ** Package [registry] *)
(* ===================================================================== *)

Module registry.

Record RetryConfig : Type := {
  MaxRetries : Z;
  RetryDelay : Z;
  MaxWaitTime : Z
}.

Record RegistryClient : Type := {
  baseURL : string;
  retryConfig : RetryConfig
}.

Record DistInfo : Type := {
  Tarball : string;
  Shasum : string
}.

Record VersionInfo : Type := {
  Version : string;
  Dependencies : gmap string string;
  Dist : DistInfo
}.

Record PackageMetadata : Type := {
  Name : string;
  Versions : gmap string VersionInfo;
  DistTags : gmap string string
}.

(** [var metadata PackageMetadata] *)
Definition zeroMetadata : PackageMetadata :=
  {| Name := ""; Versions := ∅; DistTags := ∅ |}.

Definition defaultRetires : Z := 3.

(** What the registry client takes from outside the repository:
    [github.com/Masterminds/semver/v3], [encoding/json], and the
    registry at the other end of [httpClient.Get], whose reply may depend
    on everything requested before. *)
Class Env : Type := {
  semver_Version : Type;
  semver_NewVersion : string -> result semver_Version;
  semver_String : semver_Version -> string;
  semver_LessThan : semver_Version -> semver_Version -> bool;
  semver_Constraints : Type;
  semver_NewConstraint : string -> result semver_Constraints;
  semver_Check : semver_Constraints -> semver_Version -> bool;
  json_Decode : string -> result PackageMetadata;
  httpClient_Get : list Request -> string -> Reply
}.

Section Client.
Context `{Env}.

Definition NewRegistryClient : RegistryClient :=
  {| baseURL := "https://registry.npmjs.org/";
     retryConfig := {| MaxRetries := defaultRetires;
                       RetryDelay := 1000000000;
                       MaxWaitTime := 60000000000 |} |}.

Definition SetBaseURL (c : RegistryClient) (url : string) : RegistryClient :=
  {| baseURL := url; retryConfig := retryConfig c |}.

(** The body of the retry loop of [fetchWithRetry], [n] iterations left.
    It returns the [error] of the call and the decoded [target]. *)
Fixpoint fetchAttempts (c : RegistryClient) (url : string) (n : nat) (attempt : Z)
    (lastErr : option error) (w : World) : (option error * PackageMetadata) * World :=
  match n with
  | O => ((lastErr, zeroMetadata), w)
  | S n' =>
      let w1 := if decide (0 < attempt)
                then time_Sleep (wrap64 (RetryDelay (retryConfig c) * attempt)) w
                else w in
      let resp := httpClient_Get (requests w1) url in
      let w2 := record_request (RegistryGet url) w1 in
      match resp with
      | TransportError err =>
          fetchAttempts c url n' (attempt + 1) (Some err) w2
      | Response StatusCode _ Body _ =>
          if decide (StatusCode = 429) then
            fetchAttempts c url n' (attempt + 1)
              (Some (errors.New "rate_limited" "too many requests to registry" None)) w2
          else if decide (400 <= StatusCode) then
            fetchAttempts c url n' (attempt + 1)
              (Some (errors.New "http_error"
                       ("HTTP " +:+ pretty StatusCode +:+ ": " +:+ Body) None)) w2
          else
            match json_Decode Body with
            | Err err =>
                fetchAttempts c url n' (attempt + 1)
                  (Some (errors.New "parse_error" "failed to parse registry response"
                           (Some err))) w2
            | Ok target => ((None, target), w2)
            end
      end
  end.

(** [for attempt := 0; attempt <= MaxRetries; attempt++]: the loop runs
    [MaxRetries + 1] times ([MaxRetries] below the largest [int]). *)
Definition fetchWithRetry (c : RegistryClient) (url : string) (w : World)
    : (option error * PackageMetadata) * World :=
  fetchAttempts c url (Z.to_nat (MaxRetries (retryConfig c) + 1)) 0 None w.

Definition GetPackageMetadata (c : RegistryClient) (name : string) : IO PackageMetadata :=
  fun w =>
    let url := baseURL c +:+ "/" +:+ name in
    match fetchWithRetry c url w with
    | ((Some err, _), w') =>
        (Err (errors.Wrap err ("failed to fetch metadata for package " +:+ name)), w')
    | ((None, metadata), w') => (Ok metadata, w')
    end.

Definition isExactVersion (version : string) : bool :=
  let version := GoStrings.TrimSpace version in
  if GoStrings.HasPrefix version "^"
     || GoStrings.HasPrefix version "~"
     || GoStrings.HasPrefix version ">"
     || GoStrings.HasPrefix version "<"
     || GoStrings.HasPrefix version "="
     || bool_decide (version = "latest")
     || bool_decide (version = "*")
  then false
  else is_Ok (semver_NewVersion version).

(** [for version := range metadata.Versions]: unparsable keys are
    skipped, the others appended. *)
Fixpoint parseVersions (keys : list string) : list semver_Version :=
  match keys with
  | [] => []
  | version :: rest =>
      match semver_NewVersion version with
      | Err _ => parseVersions rest
      | Ok v => v :: parseVersions rest
      end
  end.

(** The order [sort.Reverse(semver.Collection(versions))] sorts by:
    [a] may stand before [b] when [a] is not less than [b]. *)
Definition descending (a b : semver_Version) : Prop := semver_LessThan a b = false.

#[global] Instance descending_dec a b : Decision (descending a b).
Proof. unfold descending. apply _. Defined.

(** [sort.Sort] leaves the order of versions that compare equal
    unspecified; a merge sort stands for it, and the statements below use
    of it only that its result is sorted and a permutation. *)
Definition sortDescending (versions : list semver_Version) : list semver_Version :=
  merge_sort descending versions.

(** Lines 84 to 107 of [resolveVersion], on the keys in the order the
    map iteration yields them. *)
Definition pickVersion (versionConstraint : string) (constraint : semver_Constraints)
    (keys : list string) : result string :=
  let versions := sortDescending (parseVersions keys) in
  match List.find (semver_Check constraint) versions with
  | Some v => Ok (semver_String v)
  | None => Err (ErrorString ("no version found matching constraint " +:+ versionConstraint))
  end.

(** The keys in the order of one iteration over the map.  Go fixes no
    order; what is chosen among them does not depend on it
    ([pickVersion_highest]). *)
Definition versionKeys (metadata : PackageMetadata) : list string :=
  (map_to_list (Versions metadata)).*1.

Definition resolveVersion (c : RegistryClient) (name versionConstraint : string) : IO string :=
  if isExactVersion versionConstraint then ret versionConstraint
  else
    let* metadata := wrapping "failed to get package metadata: " (GetPackageMetadata c name) in
    match semver_NewConstraint versionConstraint with
    | Err err =>
        fail (WrapError ("invalid version constraint " +:+ versionConstraint +:+ ": ") err)
    | Ok constraint =>
        match pickVersion versionConstraint constraint (versionKeys metadata) with
        | Ok resolvedVersion => ret resolvedVersion
        | Err err => fail err
        end
    end.

Definition GetPackageVersion (c : RegistryClient) (name versionConstraint : string)
    : IO VersionInfo :=
  let* version := resolveVersion c name versionConstraint in
  let* metadata := GetPackageMetadata c name in
  match Versions metadata !! version with
  | None =>
      fail (errors.New "version_not_found"
              ("version " +:+ version +:+ " not found for package " +:+ name) None)
  | Some versionInfo => ret versionInfo
  end.

Definition GetLatestVersion (c : RegistryClient) (name : string) : IO VersionInfo :=
  let* metadata := GetPackageMetadata c name in
  match DistTags metadata !! "latest" with
  | None =>
      fail (errors.New "latest_version_not_found"
              ("latest version not found for package " +:+ name) None)
  | Some latestVersion => GetPackageVersion c name latestVersion
  end.

End Client.
End registry.

(* ===================================================================== *)
(** ** Package [downloader] *)
(* ===================================================================== *)

Module downloader.
Import registry.

Definition defaultConcurrency : Z := 3.

Record DownloadOptions : Type := {
  Concurrency : Z;
  UseCache : bool;
  ShowProgress : bool;
  Timeout : Z
}.

Record DownloadResult : Type := {
  PackageName : string;
  Version : string;
  Path : string;
  Shasum : string;
  Error : option error
}.

Record DownloadManager : Type := {
  registry : RegistryClient;
  cacheDir : string
}.

(** What the download manager takes from outside the repository: the
    host serving the archives behind [client.Do], [http.NewRequest]
    (which rejects a malformed URL), and the failures of the operating
    system, which may depend on the whole state of the world. *)
Class Env : Type := {
  http_NewRequest : string -> option error;
  client_Do : list Request -> string -> Reply;
  os_fault : World -> OsOp -> option error
}.

Section Manager.
Context `{registry.Env} `{Env}.

Definition NewDownloadManager (registryClient : RegistryClient) (cacheDir : string)
    : DownloadManager :=
  {| registry := registryClient; cacheDir := cacheDir |}.

(** *** Package [os] on the cache directory *)

Definition os_MkdirAll (path : string) : IO unit :=
  fun w => match os_fault w (OpMkdirAll path) with
           | Some err => (Err err, w)
           | None => (Ok tt, w)
           end.

(** [os.Create] creates the file or truncates the one that is there. *)
Definition os_Create (path : string) : IO unit :=
  fun w => match os_fault w (OpCreate path) with
           | Some err => (Err err, w)
           | None => (Ok tt, mkWorld (<[path := ""]> (fs w)) (requests w) (slept w))
           end.

(** [os.Stat] fails when nothing is at the path. *)
Definition os_Stat (path : string) (w : World) : option error :=
  match fs w !! path with
  | Some _ => None
  | None => Some (ErrorString ("stat " +:+ path +:+ ": no such file or directory"))
  end.

Definition os_ReadFile (path : string) (w : World) : result string :=
  match os_fault w (OpReadFile path) with
  | Some err => Err err
  | None =>
      match fs w !! path with
      | Some content => Ok content
      | None => Err (ErrorString ("open " +:+ path +:+ ": no such file or directory"))
      end
  end.

Definition os_Remove (path : string) (w : World) : World :=
  mkWorld (delete path (fs w)) (requests w) (slept w).

Definition write_file (path content : string) (w : World) : World :=
  mkWorld (<[path := content]> (fs w)) (requests w) (slept w).

(** [io.Copy] from the response body into the file just created: it
    returns the first error, of the write or of the read, and by then has
    written what the body delivered; a write that fails leaves the file
    as it was created. *)
Definition io_Copy (path body : string) (bodyErr : option error) (w : World)
    : option error * World :=
  match os_fault w (OpWrite path) with
  | Some err => (Some err, w)
  | None => (bodyErr, write_file path body w)
  end.

(** *** The cache layer *)

(** [checkCache] returns [(path, found, error)]. *)
Definition checkCache (dm : DownloadManager) (name version expectedShasum : string)
    (w : World) : (string * bool * option error) * World :=
  let path := Filepath.Join [cacheDir dm; name; version; "package.tgz"] in
  match os_Stat path w with
  | Some _ => (("", false, None), w)
  | None =>
      match os_ReadFile path w with
      | Err _ => (("", false, None), w)
      | Ok content =>
          let actualShasum := sha1_hex content in
          if decide (actualShasum <> expectedShasum) then
            (("", false,
              Some (ErrorString ("checksum mismatch in cached file (expected: "
                                 +:+ expectedShasum +:+ ", got: " +:+ actualShasum +:+ ")"))),
             os_Remove path w)
          else ((path, true, None), w)
      end
  end.

(** *** Transfers *)

(** [downloadFile].  The progress bar only observes the bytes read, so
    [showProgress] does not change what is written. *)
Definition downloadFile (dm : DownloadManager) (url targetPath expectedShasum : string)
    (showProgress : bool) : IO unit :=
  let* _ := wrapping "failed to create target directory: "
              (os_MkdirAll (Filepath.Dir targetPath)) in
  let* _ := wrapping "failed to create target file: " (os_Create targetPath) in
  fun w =>
    match http_NewRequest url with
    | Some err => (Err (WrapError "failed to create request: " err), w)
    | None =>
        let resp := client_Do (requests w) url in
        let w1 := record_request (TarballGet url) w in
        match resp with
        | TransportError err => (Err (WrapError "failed to download file: " err), w1)
        | Response StatusCode Status Body BodyErr =>
            if decide (StatusCode <> 200) then
              (Err (ErrorString ("failed to download file (status " +:+ pretty StatusCode
                                 +:+ "): " +:+ Status)), w1)
            else
              match io_Copy targetPath Body BodyErr w1 with
              | (Some err, w2) =>
                  (Err (WrapError "download interrupted: " err), os_Remove targetPath w2)
              | (None, w2) =>
                  let actualShasum := sha1_hex Body in
                  if decide (actualShasum <> expectedShasum) then
                    (Err (ErrorString ("checksum mismatch (expected: " +:+ expectedShasum
                                       +:+ ", got: " +:+ actualShasum +:+ ")")),
                     os_Remove targetPath w2)
                  else (Ok tt, w2)
              end
        end
    end.

(** The cache lookup of [DownloadPackage]: an error, a hit with its
    path, or a miss. *)
Definition cacheLookup (dm : DownloadManager) (name version expectedShasum : string)
    : IO (option string) :=
  fun w =>
    match checkCache dm name version expectedShasum w with
    | ((_, _, Some err), w') => (Err (WrapError "cache validation failed: " err), w')
    | ((cachedPath, true, None), w') => (Ok (Some cachedPath), w')
    | ((_, false, None), w') => (Ok None, w')
    end.

Definition DownloadPackage (dm : DownloadManager) (name version : string)
    (opts : DownloadOptions) : IO DownloadResult :=
  let* versionInfo := wrapping "failed to get package metadata: "
                        (GetPackageVersion (registry dm) name version) in
  let* cached := (if UseCache opts
                  then cacheLookup dm name version (registry.Shasum (Dist versionInfo))
                  else ret None) in
  match cached with
  | Some cachedPath =>
      ret {| PackageName := name;
             Version := version;
             Path := cachedPath;
             Shasum := registry.Shasum (Dist versionInfo);
             Error := None |}
  | None =>
      let targetDir := Filepath.Join [cacheDir dm; name; version] in
      let targetPath := Filepath.Join [targetDir; "package.tgz"] in
      let* _ := downloadFile dm (Tarball (Dist versionInfo)) targetPath
                  (registry.Shasum (Dist versionInfo)) (ShowProgress opts) in
      ret {| PackageName := name;
             Version := version;
             Path := targetPath;
             Shasum := registry.Shasum (Dist versionInfo);
             Error := None |}
  end.

(** *** The worker pool of [DownloadDependencies] *)

(** [if opts.Concurrency <= 0 { opts.Concurrency = defaultConcurrency }] *)
Definition setConcurrency (opts : DownloadOptions) : DownloadOptions :=
  if decide (Concurrency opts <= 0) then
    {| Concurrency := defaultConcurrency;
       UseCache := UseCache opts;
       ShowProgress := ShowProgress opts;
       Timeout := Timeout opts |}
  else opts.

(** The capacity of [semaphore := make(chan struct{}, opts.Concurrency)]. *)
Definition semaphoreCapacity (opts : DownloadOptions) : Z :=
  Concurrency (setConcurrency opts).

(** The goroutines of one call: those blocked on [semaphore <- struct{}{}],
    those holding a slot, and the two buffered channels.  A goroutine that
    holds a slot runs its [DownloadPackage] in one step. *)
Record Pool : Type := mkPool {
  world : World;
  waiting : list (string * string);
  running : list (string * string);
  resultsChan : list DownloadResult;
  errorsChan : list error
}.

Inductive PoolEvent : Type :=
| Acquire (i : nat)
| Finish (i : nat).

(** One move of the scheduler.  [Acquire i] lets the [i]-th blocked
    goroutine take a slot, which needs a free one; [Finish i] lets the
    [i]-th goroutine holding a slot download, send on its channel (which
    needs room in the buffer) and give the slot back. *)
Definition pool_fire (dm : DownloadManager) (opts : DownloadOptions)
    (semCap chanCap : nat) (ev : PoolEvent) (p : Pool) : option Pool :=
  match ev with
  | Acquire i =>
      match waiting p !! i with
      | Some dep =>
          if decide (length (running p) < semCap)%nat then
            Some (mkPool (world p) (delete i (waiting p)) (running p ++ [dep])
                         (resultsChan p) (errorsChan p))
          else None
      | None => None
      end
  | Finish i =>
      match running p !! i with
      | Some (name, version) =>
          match DownloadPackage dm name version opts (world p) with
          | (Ok result, w') =>
              if decide (length (resultsChan p) < chanCap)%nat then
                Some (mkPool w' (waiting p) (delete i (running p))
                             (resultsChan p ++ [result]) (errorsChan p))
              else None
          | (Err err, w') =>
              if decide (length (errorsChan p) < chanCap)%nat then
                Some (mkPool w' (waiting p) (delete i (running p)) (resultsChan p)
                             (errorsChan p ++
                                [WrapError ("failed to download " +:+ name +:+ "@"
                                            +:+ version +:+ ": ") err]))
              else None
          end
      | None => None
      end
  end.

Definition pool_step (dm : DownloadManager) (opts : DownloadOptions)
    (semCap chanCap : nat) (p p' : Pool) : Prop :=
  exists ev, pool_fire dm opts semCap chanCap ev p = Some p'.

Fixpoint pool_run (dm : DownloadManager) (opts : DownloadOptions)
    (semCap chanCap : nat) (schedule : list PoolEvent) (p : Pool) : option Pool :=
  match schedule with
  | [] => Some p
  | ev :: rest =>
      match pool_fire dm opts semCap chanCap ev p with
      | Some p' => pool_run dm opts semCap chanCap rest p'
      | None => None
      end
  end.

(** One goroutine per entry of the dependency map, all started. *)
Definition pool_init (deps : list (string * string)) (w : World) : Pool :=
  mkPool w deps [] [] [].

(** [wg.Wait()] returns: every goroutine has run to its end. *)
Definition pool_done (p : Pool) : Prop := waiting p = [] /\ running p = [].

(** [fmt.Errorf("...: %v", downloadErrors)] *)
Definition combinedError (downloadErrors : list error) : error :=
  ErrorString ("some dependencies failed to download: ["
               +:+ GoStrings.Join (map errors.Error downloadErrors) " " +:+ "]").

(** The two channels are closed and drained, the errors first. *)
Definition collect (p : Pool) : list DownloadResult * option error :=
  match errorsChan p with
  | [] => (resultsChan p, None)
  | downloadErrors => (resultsChan p, Some (combinedError downloadErrors))
  end.

(** The calls of [DownloadDependencies] and what each may return: the
    result list, the error, and the world it leaves. *)
Inductive DownloadDependencies (dm : DownloadManager) (name version : string)
    (opts : DownloadOptions) (w : World)
    : list DownloadResult * option error -> World -> Prop :=
| DD_metadata_error err w1 :
    GetPackageVersion (registry dm) name version w = (Err err, w1) ->
    DownloadDependencies dm name version opts w
      ([], Some (WrapError "failed to get package metadata: " err)) w1
| DD_no_dependencies versionInfo w1 :
    GetPackageVersion (registry dm) name version w = (Ok versionInfo, w1) ->
    size (Dependencies versionInfo) = 0%nat ->
    DownloadDependencies dm name version opts w ([], None) w1
| DD_pool versionInfo w1 p :
    GetPackageVersion (registry dm) name version w = (Ok versionInfo, w1) ->
    size (Dependencies versionInfo) <> 0%nat ->
    rtc (pool_step dm (setConcurrency opts)
           (Z.to_nat (semaphoreCapacity opts)) (size (Dependencies versionInfo)))
        (pool_init (map_to_list (Dependencies versionInfo)) w1) p ->
    pool_done p ->
    DownloadDependencies dm name version opts w (collect p) (world p).

End Manager.
End downloader.

(* ===================================================================== *)
(** ** The progress bar of package [downloader] *)
(* ===================================================================== *)

Module progress.

(** [ProgressBar], without the time it was started at: the speed, the
    percentage and the drawing are floating-point and terminal output,
    and are left out. *)
Record ProgressBar : Type := mkBar {
  current : Z;
  total : Z;
  active : bool
}.

Definition NewProgressBar (total : Z) : ProgressBar := mkBar 0 total true.

(** [atomic.AddInt64(&p.current, n)] *)
Definition Add (p : ProgressBar) (n : Z) : ProgressBar :=
  mkBar (wrap64 (current p + n)) (total p) (active p).

Definition Current (p : ProgressBar) : Z := current p.

Definition Finish (p : ProgressBar) : ProgressBar := mkBar (current p) (total p) false.

(** What [Read] returns beside the bytes. *)
Inductive ReadError : Type :=
| NoError
| EOF
| Failed (err : errors.error).

(** An [io.Reader] with state [S]: [Read] is given the length of the
    buffer and returns the bytes it put there. *)
Definition Reader (S : Type) : Type := S -> nat -> (string * ReadError) * S.

(** [ProgressReader.Read], the bar being part of the state. *)
Definition ProgressReader_Read {S : Type} (reader : Reader S) : Reader (S * ProgressBar) :=
  fun st bufSize =>
    let '(s, bar) := st in
    let '((data, err), s') := reader s bufSize in
    let n := Z.of_nat (String.length data) in
    let bar1 := if decide (0 < n) then Add bar n else bar in
    let bar2 := match err with EOF => Finish bar1 | _ => bar1 end in
    ((data, err), (s', bar2)).

End progress.

(* ===================================================================== *)
(** ** Package [regexp], for the patterns of the repository *)
(* ===================================================================== *)

Module regexp.

(** A pattern as [regexp/syntax] parses it.  The patterns of the
    repository are anchored at both ends ([^...$], no flags), use classes
    of ASCII bytes only, and [.], which matches anything but a line feed;
    on such patterns matching rune by rune and matching byte by byte
    accept the same strings. *)
Inductive Regexp : Type :=
| NoMatch
| EmptyMatch
| CharClass (ranges : list (ascii * ascii))
| Concat (r1 r2 : Regexp)
| Alternate (r1 r2 : Regexp)
| Star (r : Regexp).

Definition in_range (a : ascii) (range : ascii * ascii) : bool :=
  (nat_of_ascii range.1 <=? nat_of_ascii a)%nat
  && (nat_of_ascii a <=? nat_of_ascii range.2)%nat.

Definition in_class (ranges : list (ascii * ascii)) (a : ascii) : bool :=
  existsb (in_range a) ranges.

Fixpoint Literal (s : string) : Regexp :=
  match s with
  | "" => EmptyMatch
  | String a s' => Concat (CharClass [(a, a)]) (Literal s')
  end.

Definition Plus (r : Regexp) : Regexp := Concat r (Star r).
Definition Quest (r : Regexp) : Regexp := Alternate r EmptyMatch.
Definition Seq (rs : list Regexp) : Regexp := foldr Concat EmptyMatch rs.
Definition OneOf (rs : list Regexp) : Regexp := foldr Alternate NoMatch rs.

(** [.] without the flag [s]. *)
Definition AnyCharNotNL : Regexp :=
  CharClass [(ascii_of_nat 0, ascii_of_nat 9); (ascii_of_nat 11, ascii_of_nat 255)].

(** Matching, by derivatives: [nullable r] tells whether [r] matches the
    empty string, and [derive a r] matches what [r] matches after an
    [a]. *)
Fixpoint nullable (r : Regexp) : bool :=
  match r with
  | NoMatch => false
  | EmptyMatch => true
  | CharClass _ => false
  | Concat r1 r2 => nullable r1 && nullable r2
  | Alternate r1 r2 => nullable r1 || nullable r2
  | Star _ => true
  end.

Fixpoint derive (a : ascii) (r : Regexp) : Regexp :=
  match r with
  | NoMatch => NoMatch
  | EmptyMatch => NoMatch
  | CharClass ranges => if in_class ranges a then EmptyMatch else NoMatch
  | Concat r1 r2 =>
      if nullable r1
      then Alternate (Concat (derive a r1) r2) (derive a r2)
      else Concat (derive a r1) r2
  | Alternate r1 r2 => Alternate (derive a r1) (derive a r2)
  | Star r1 => Concat (derive a r1) (Star r1)
  end.

(** The method [MatchString] of a [Regexp], for a pattern anchored at
    both ends: the whole string is matched. *)
Fixpoint MatchString (r : Regexp) (s : string) : bool :=
  match s with
  | "" => nullable r
  | String a s' => MatchString (derive a r) s'
  end.

End regexp.

(* ===================================================================== *)
(** ** Package [parser]: package.json and its validation *)
(* ===================================================================== *)

Module parser.
Import regexp downloader.

Definition ErrInvalidPackageJSON : string := "invalid package.json".
Definition ErrPackageJSONNotFound : string := "package.json not found".

Record PackageJSON : Type := {
  Name : string;
  Version : string;
  Description : string;
  Main : string;
  Scripts : gmap string string;
  Dependencies : gmap string string;
  DevDependencies : gmap string string
}.

Record ValidationError : Type := {
  Field : string;
  Message : string
}.

Definition digit : Regexp := CharClass [("0", "9")]%char.

(** The pattern of [validateName], a blank between its parts:
    [^ (?: @ [a-z0-9-*~] [a-z0-9-*._~]* \/ )? [a-z0-9-~] [a-z0-9-._~]* $] *)
Definition nameRegexp : Regexp :=
  Seq [ Quest (Seq [ Literal "@";
                     CharClass [("a", "z"); ("0", "9"); ("-", "-"); ("*", "*");
                                ("~", "~")]%char;
                     Star (CharClass [("a", "z"); ("0", "9"); ("-", "-"); ("*", "*");
                                      (".", "."); ("_", "_"); ("~", "~")]%char);
                     Literal "/" ]);
        CharClass [("a", "z"); ("0", "9"); ("-", "-"); ("~", "~")]%char;
        Star (CharClass [("a", "z"); ("0", "9"); ("-", "-"); (".", "."); ("_", "_");
                         ("~", "~")]%char) ].

(** [0 | [1-9] \d*] *)
Definition numeral : Regexp :=
  Alternate (Literal "0") (Concat (CharClass [("1", "9")]%char) (Star digit)).

(** [0 | [1-9] \d* | \d* [a-zA-Z-] [0-9a-zA-Z-]*] *)
Definition prereleaseIdentifier : Regexp :=
  OneOf [ Literal "0";
          Concat (CharClass [("1", "9")]%char) (Star digit);
          Seq [ Star digit;
                CharClass [("a", "z"); ("A", "Z"); ("-", "-")]%char;
                Star (CharClass [("0", "9"); ("a", "z"); ("A", "Z"); ("-", "-")]%char) ] ].

(** [[0-9a-zA-Z-]+] *)
Definition buildIdentifier : Regexp :=
  Plus (CharClass [("0", "9"); ("a", "z"); ("A", "Z"); ("-", "-")]%char).

(** The pattern of [validateVersion], a blank between its parts, [N]
    for the numeral [0 | [1-9] \d*], [P] for the prerelease identifier
    and [B] for the build identifier above:
    [^ (N) \. (N) \. (N) (?: - ( (?:P) (?: \. (?:P) )* ) )?
       (?: \+ ( B (?: \. B )* ) )? $] *)
Definition versionRegexp : Regexp :=
  Seq [ numeral; Literal "."; numeral; Literal "."; numeral;
        Quest (Seq [ Literal "-"; prereleaseIdentifier;
                     Star (Seq [ Literal "."; prereleaseIdentifier ]) ]);
        Quest (Seq [ Literal "+"; buildIdentifier;
                     Star (Seq [ Literal "."; buildIdentifier ]) ]) ].

(** [[0-9]+ \. [0-9]+ \. [0-9]+] *)
Definition triple : Regexp :=
  Seq [ Plus digit; Literal "."; Plus digit; Literal "."; Plus digit ].

(** The pattern of [validateDependency], a blank between its parts, [T]
    for the triple above:
    [^ ( [\^~]? T | latest | [*] | >= T | file: .* | git\+https:\/\/ .* ) $] *)
Definition dependencyRegexp : Regexp :=
  OneOf [ Seq [ Quest (CharClass [("^", "^"); ("~", "~")]%char); triple ];
          Literal "latest";
          CharClass [("*", "*")]%char;
          Seq [ Literal ">="; triple ];
          Seq [ Literal "file:"; Star AnyCharNotNL ];
          Seq [ Literal "git+https://"; Star AnyCharNotNL ] ].

Definition validateName (name : string) : option error :=
  if decide (name = "") then
    Some (errors.New ErrInvalidPackageJSON "name cannot be empty" None)
  else if decide (214 < String.length name)%nat then
    Some (errors.New ErrInvalidPackageJSON "name too long (max 214 chars)" None)
  else if negb (MatchString nameRegexp name) then
    Some (errors.New ErrInvalidPackageJSON "invalid package name format" None)
  else None.

Definition validateVersion (version : string) : option error :=
  if decide (version = "") then
    Some (errors.New ErrInvalidPackageJSON "version cannot be empty" None)
  else if negb (MatchString versionRegexp version) then
    Some (errors.New ErrInvalidPackageJSON "invalid version format (must be semver)" None)
  else None.

Definition validateDependency (name version : string) : option error :=
  if decide (GoStrings.TrimSpace version = "") then
    Some (errors.New ErrInvalidPackageJSON
            ("version for dependency '" +:+ name +:+ "' cannot be empty") None)
  else if negb (MatchString dependencyRegexp version) then
    Some (errors.New ErrInvalidPackageJSON
            ("invalid version format for dependency '" +:+ name +:+ "'") None)
  else None.

(** What the parser takes from outside the repository: [encoding/json],
    the working directory, and the order in which [range] visits the
    entries of a map, which Go leaves open. *)
Class Env : Type := {
  json_Unmarshal : string -> result PackageJSON;
  json_MarshalIndent : PackageJSON -> result string;
  os_Getwd : result string;
  range : gmap string string -> list (string * string)
}.

Section Parser.
Context `{downloader.Env} `{Env}.

Definition fieldError (field : string) (err : option error) : list ValidationError :=
  match err with
  | Some e => [{| Field := field; Message := errors.Error e |}]
  | None => []
  end.

Definition Validate (p : PackageJSON) : list ValidationError :=
  fieldError "name" (validateName (Name p))
  ++ fieldError "version" (validateVersion (Version p))
  ++ flat_map (fun entry => fieldError ("dependencies." +:+ entry.1)
                              (validateDependency entry.1 entry.2))
              (range (Dependencies p)).

Definition ParsePackageJSON (filename : string) (w : World) : result PackageJSON :=
  match os_ReadFile filename w with
  | Err err =>
      Err (errors.New ErrPackageJSONNotFound "failed to read package.json" (Some err))
  | Ok data =>
      match json_Unmarshal data with
      | Err err =>
          Err (errors.New ErrInvalidPackageJSON "failed to parse package.json" (Some err))
      | Ok pkg =>
          match Validate pkg with
          | first :: _ => Err (errors.New ErrInvalidPackageJSON (Message first) None)
          | [] => Ok pkg
          end
      end
  end.

(** [os.WriteFile]: the file is created or truncated, then written. *)
Definition os_WriteFile (filename data : string) (w : World) : option error * World :=
  match os_Create filename w with
  | (Err err, w1) => (Some err, w1)
  | (Ok _, w1) =>
      match os_fault w1 (OpWrite filename) with
      | Some err => (Some err, w1)
      | None => (None, write_file filename data w1)
      end
  end.

Definition WriteToFile (p : PackageJSON) (filename : string) (w : World)
    : option error * World :=
  match Validate p with
  | first :: _ => (Some (errors.New ErrInvalidPackageJSON (Message first) None), w)
  | [] =>
      match json_MarshalIndent p with
      | Err err =>
          (Some (errors.New ErrInvalidPackageJSON "failed to marshal package.json"
                   (Some err)), w)
      | Ok data =>
          match os_WriteFile filename data w with
          | (Some err, w') =>
              (Some (errors.New ErrInvalidPackageJSON "failed to write package.json"
                       (Some err)), w')
          | (None, w') => (None, w')
          end
      end
  end.



End Parser.
End parser.

(* ===================================================================== *)
(** ** Package [commands]: download and verify *)
(* ===================================================================== *)

Module commands.
Import registry downloader.

(** The home directory of the user, from [os.UserHomeDir]. *)
Class Env : Type := {
  os_UserHomeDir : errors.result string
}.

Definition parsePackageArg (arg : string) : string * string :=
  match GoStrings.Split arg "@" with
  | name :: version :: _ => (name, version)
  | [name] => (name, "")
  | [] => ("", "")
  end.

Section Commands.
Context `{registry.Env} `{downloader.Env} `{Env}.







End Commands.

Section Init.
Context `{downloader.Env} `{parser.Env}.


End Init.
End commands.

(* ===================================================================== *)
(** ** A reference platform *)
(* ===================================================================== *)

(** A platform to run the model on: the numeric fragment of semantic
    versions ([v?MAJOR[.MINOR[.PATCH]]], one comparator per constraint),
    servers that answer each URL from a script, and a JSON decoder given
    by its table.  Strings outside the fragment are rejected here; the
    theorems do not depend on this platform. *)
Module Reference.
Import registry downloader.

Record version : Type := mkVersion { major : N; minor : N; patch : N }.

Definition version_char (a : ascii) : bool :=
  match Ascii.is_nat a with
  | Some _ => true
  | None => bool_decide (a = "."%char) || bool_decide (a = "v"%char)
  end.

Fixpoint parse_digits (s : list ascii) (acc : N) : option N :=
  match s with
  | [] => Some acc
  | a :: s' =>
      match Ascii.is_nat a with
      | Some d => parse_digits s' (10 * acc + N.of_nat d)%N
      | None => None
      end
  end.

Definition parse_number (s : list ascii) : option N :=
  match s with
  | [] => None
  | _ => parse_digits s 0%N
  end.

Fixpoint split_dots (s cur : list ascii) : list (list ascii) :=
  match s with
  | [] => [rev cur]
  | a :: s' =>
      if decide (a = "."%char) then rev cur :: split_dots s' []
      else split_dots s' (a :: cur)
  end.

Definition ErrInvalidSemVer : error := ErrorString "Invalid Semantic Version".

Definition parse_parts (l : list ascii) : option version :=
  match map parse_number (split_dots l []) with
  | [Some a] => Some (mkVersion a 0 0)
  | [Some a; Some b] => Some (mkVersion a b 0)
  | [Some a; Some b; Some c] => Some (mkVersion a b c)
  | _ => None
  end.

Definition NewVersion (s : string) : result version :=
  let l := list_ascii_of_string s in
  if forallb version_char l then
    let digits := match l with
                  | a :: l' => if decide (a = "v"%char) then l' else l
                  | [] => l
                  end in
    match parse_parts digits with
    | Some v => Ok v
    | None => Err ErrInvalidSemVer
    end
  else Err ErrInvalidSemVer.

Definition String (v : version) : string :=
  pretty (major v) +:+ "." +:+ pretty (minor v) +:+ "." +:+ pretty (patch v).

Definition LessThan (a b : version) : bool :=
  if decide (major a = major b) then
    if decide (minor a = minor b) then bool_decide (patch a < patch b)%N
    else bool_decide (minor a < minor b)%N
  else bool_decide (major a < major b)%N.

Inductive comparator : Type := Caret | Tilde | GE | GT | LE | LT | EQ.

Inductive constraints : Type :=
| AnyVersion
| Compare (op : comparator) (operand : version).

(** The first version a caret range leaves out. *)
Definition caret_bound (v : version) : version :=
  if decide (major v <> 0)%N then mkVersion (major v + 1) 0 0
  else if decide (minor v <> 0)%N then mkVersion 0 (minor v + 1) 0
  else mkVersion 0 0 (patch v + 1).

Definition Check (c : constraints) (v : version) : bool :=
  match c with
  | AnyVersion => true
  | Compare Caret o => negb (LessThan v o) && LessThan v (caret_bound o)
  | Compare Tilde o => negb (LessThan v o) && LessThan v (mkVersion (major o) (minor o + 1) 0)
  | Compare GE o => negb (LessThan v o)
  | Compare GT o => LessThan o v
  | Compare LE o => negb (LessThan o v)
  | Compare LT o => LessThan v o
  | Compare EQ o => negb (LessThan v o) && negb (LessThan o v)
  end.

Definition operators : list (string * comparator) :=
  [ (">=", GE); ("<=", LE); ("^", Caret); ("~", Tilde); (">", GT); ("<", LT); ("=", EQ) ].

Definition full_version (l : list ascii) : option version :=
  match map parse_number (split_dots l []) with
  | [Some a; Some b; Some c] => Some (mkVersion a b c)
  | _ => None
  end.

Fixpoint parse_comparator (ops : list (string * comparator)) (l : list ascii)
    : option constraints :=
  match ops with
  | [] => Compare EQ <$> full_version l
  | (sym, op) :: ops' =>
      match GoStrings.strip_prefix (list_ascii_of_string sym) l with
      | Some rest => Compare op <$> full_version rest
      | None => parse_comparator ops' l
      end
  end.

Definition NewConstraint (s : string) : result constraints :=
  if decide (s = "*") then Ok AnyVersion
  else match parse_comparator operators (list_ascii_of_string s) with
       | Some c => Ok c
       | None => Err (ErrorString ("improper constraint: " +:+ s))
       end.

(** A server that answers the [n]-th request for a URL with the [n]-th
    reply of that URL's script, the last one again once the script is
    used up, and 404 for a URL it does not know. *)
Definition script : Type := list (string * list Reply).

Definition request_url (r : Request) : string :=
  match r with RegistryGet url | TarballGet url => url end.

Definition seen (keep : Request -> bool) (history : list Request) (url : string) : nat :=
  length (List.filter (fun r => keep r && bool_decide (request_url r = url)) history).

Definition notFound : Reply := Response 404 "404 Not Found" "" None.

Fixpoint lookup_script (s : script) (url : string) : option (list Reply) :=
  match s with
  | [] => None
  | (u, replies) :: s' => if decide (u = url) then Some replies else lookup_script s' url
  end.

Definition serve (keep : Request -> bool) (s : script) (history : list Request)
    (url : string) : Reply :=
  match lookup_script s url with
  | None => notFound
  | Some replies =>
      let n := seen keep history url in
      match replies !! n with
      | Some r => r
      | None => List.last replies notFound
      end
  end.

Fixpoint decode_with (table : list (string * PackageMetadata)) (body : string)
    : result PackageMetadata :=
  match table with
  | [] => Err (ErrorString "invalid character in JSON document")
  | (b, metadata) :: table' =>
      if decide (b = body) then Ok metadata else decode_with table' body
  end.

Definition registryEnv (s : script) (table : list (string * PackageMetadata))
    : registry.Env :=
  {| semver_Version := version;
     semver_NewVersion := NewVersion;
     semver_String := String;
     semver_LessThan := LessThan;
     semver_Constraints := constraints;
     semver_NewConstraint := NewConstraint;
     semver_Check := Check;
     json_Decode := decode_with table;
     httpClient_Get := serve (fun r => negb (is_tarball_request r)) s |}.

Definition downloaderEnv (s : script) (fault : OsOp -> option error) : downloader.Env :=
  {| http_NewRequest := fun _ => None;
     client_Do := serve is_tarball_request s;
     os_fault := fun _ => fault |}.

Definition noFault : OsOp -> option error := fun _ => None.

Definition ok (body : string) : Reply := Response 200 "200 OK" body None.

(** A reader over a string, as [strings.Reader]: [Read] hands out the
    next bytes, as many as the buffer takes, and [io.EOF] once none is
    left. *)
Definition stringsReader : progress.Reader string :=
  fun s bufSize =>
    match s with
    | "" => (("", progress.EOF), "")
    | _ =>
        let l := list_ascii_of_string s in
        ((string_of_list_ascii (take bufSize l), progress.NoError),
         string_of_list_ascii (drop bufSize l))
    end.

End Reference.

(* ===================================================================== *)
(** ** The scenarios of the test suite *)
(* ===================================================================== *)

Module Scenario.
Import registry downloader Reference.

Definition registryURL : string := "http://registry.test".
Definition client : RegistryClient := SetBaseURL NewRegistryClient registryURL.
Definition dm : DownloadManager := NewDownloadManager client "/cache".
Definition emptyWorld : World := mkWorld ∅ [] 0.

Definition tarballURL (name version : string) : string :=
  registryURL +:+ "/" +:+ name +:+ "/-/" +:+ version +:+ ".tgz".
Definition content (name version : string) : string :=
  name +:+ "-" +:+ version +:+ "-content".

Definition info (name version : string) (deps : list (string * string)) : VersionInfo :=
  {| registry.Version := version;
     Dependencies := list_to_map deps;
     Dist := {| Tarball := tarballURL name version;
                registry.Shasum := sha1_hex (content name version) |} |}.

Definition package (name : string) (versions : list (string * VersionInfo))
    (tags : list (string * string)) : PackageMetadata :=
  {| Name := name; Versions := list_to_map versions; DistTags := list_to_map tags |}.

Definition express : PackageMetadata :=
  package "express"
    [ ("4.17.0", info "express" "4.17.0" [("body-parser", "1.19.0")]);
      ("4.17.1", info "express" "4.17.1" [("body-parser", "1.19.0"); ("cookie", "0.4.0")]) ]
    [ ("latest", "4.17.1") ].
Definition bodyParser : PackageMetadata :=
  package "body-parser" [ ("1.19.0", info "body-parser" "1.19.0" []) ] [ ("latest", "1.19.0") ].
Definition cookie : PackageMetadata :=
  package "cookie" [ ("0.4.0", info "cookie" "0.4.0" []) ] [ ("latest", "0.4.0") ].
(** A package one of whose dependencies the registry does not know. *)
Definition app : PackageMetadata :=
  package "app" [ ("1.0.0", info "app" "1.0.0" [("cookie", "0.4.0"); ("missing", "1.0.0")]) ] [].
(** A package published under a key that is not in canonical form. *)
Definition legacy : PackageMetadata :=
  package "legacy" [ ("v1.0.0", info "legacy" "1.0.0" []) ] [].
Definition testPackage : PackageMetadata :=
  package "test-package" [ ("1.0.0", info "test-package" "1.0.0" []) ] [].

Definition decodeTable : list (string * PackageMetadata) :=
  [ ("{express}", express); ("{body-parser}", bodyParser); ("{cookie}", cookie);
    ("{app}", app); ("{legacy}", legacy); ("{test-package}", testPackage) ].

Definition unavailable : Reply := Response 503 "503 Service Unavailable" "" None.

Definition registryScript : script :=
  [ (registryURL +:+ "/express", [ok "{express}"]);
    (registryURL +:+ "/body-parser", [ok "{body-parser}"]);
    (registryURL +:+ "/cookie", [ok "{cookie}"]);
    (registryURL +:+ "/app", [ok "{app}"]);
    (registryURL +:+ "/legacy", [ok "{legacy}"]);
    (registryURL +:+ "/test-package", [unavailable; unavailable; ok "{test-package}"]);
    (registryURL +:+ "/ratelimit", [Response 429 "429 Too Many Requests" "" None]);
    (registryURL +:+ "/malformed", [ok "{invalid json"]) ].

Definition archives : script :=
  [ (tarballURL "express" "4.17.1", [ok (content "express" "4.17.1")]);
    (tarballURL "body-parser" "1.19.0", [ok (content "body-parser" "1.19.0")]);
    (tarballURL "cookie" "0.4.0", [ok (content "cookie" "0.4.0")]) ].

Definition registryEnv : registry.Env := Reference.registryEnv registryScript decodeTable.
Definition downloaderEnv : downloader.Env := Reference.downloaderEnv archives noFault.

(** The archive host is down: every archive request is answered 404. *)
Definition offlineEnv : downloader.Env := Reference.downloaderEnv [] noFault.

(** The cached archive of express 4.17.1 cannot be read. *)
Definition expressPath : string := "/cache/express/4.17.1/package.tgz".

(** The cache holds something else than the archive of express 4.17.1. *)
Definition tamperedWorld : World :=
  mkWorld {[ expressPath := "deliberately corrupted content" ]} [] 0.

(** The dependencies of express 4.17.1 and of the application, and a
    longer list. *)
Definition expressDeps : list (string * string) :=
  [ ("body-parser", "1.19.0"); ("cookie", "0.4.0") ].
Definition appDeps : list (string * string) :=
  [ ("cookie", "0.4.0"); ("missing", "1.0.0") ].
Definition threeDeps : list (string * string) :=
  [ ("body-parser", "1.19.0"); ("cookie", "0.4.0"); ("express", "4.17.1") ].

Definition appInfo : VersionInfo := info "app" "1.0.0" appDeps.
Definition cookieResult : DownloadResult :=
  {| PackageName := "cookie";
     downloader.Version := "0.4.0";
     Path := "/cache/cookie/0.4.0/package.tgz";
     downloader.Shasum := sha1_hex (content "cookie" "0.4.0");
     Error := None |}.
Definition missingError : error :=
  WrapError "failed to download missing@1.0.0: "
    (WrapError "failed to get package metadata: "
       (ZapError "http_error"
          "failed to fetch metadata for package missing: HTTP 404: " None)).

(** Two goroutines hold a slot and a third one waits. *)
Definition twoRunning : Pool :=
  mkPool emptyWorld [("express", "4.17.1")]
         [("body-parser", "1.19.0"); ("cookie", "0.4.0")] [] [].

(** A client whose retry count was set below zero. *)
Definition hastyClient : RegistryClient :=
  {| baseURL := registryURL;
     retryConfig := {| MaxRetries := -1; RetryDelay := 1000000000;
                       MaxWaitTime := 60000000000 |} |}.


(** The package of the parser test, a JSON codec that knows it, and a
    project directory. *)
Definition testPackageJSON : parser.PackageJSON :=
  {| parser.Name := "test-package";
     parser.Version := "1.0.0";
     parser.Description := "";
     parser.Main := "";
     parser.Scripts := ∅;
     parser.Dependencies := {[ "express" := "^4.17.1" ]};
     parser.DevDependencies := ∅ |}.
Definition parserEnv : parser.Env :=
  {| parser.json_Unmarshal := fun data =>
       if decide (data = "{test-package}") then Ok testPackageJSON
       else Err (ErrorString "invalid character in JSON document");
     parser.json_MarshalIndent := fun p => Ok ("{" +:+ parser.Name p +:+ "}");
     parser.os_Getwd := Ok "/home/user/my-project";
     parser.range := map_to_list |}.

Definition useCache : DownloadOptions :=
  {| Concurrency := 0; UseCache := true; ShowProgress := false; Timeout := 0 |}.
Definition twoAtATime : DownloadOptions :=
  {| Concurrency := 2; UseCache := true; ShowProgress := true; Timeout := 0 |}.

End Scenario.

(* ===================================================================== *)
(** ** Vocabulary of the statements *)
(* ===================================================================== *)

Module Props.
Import registry downloader.

Section Registry.
Context `{registry.Env}.

(** The reply to the [i]-th further request for [url] when the requests
    of [history] have been sent and nothing else is requested meanwhile. *)
Definition reply_at (history : list Request) (url : string) (i : nat) : Reply :=
  httpClient_Get (history ++ replicate i (RegistryGet url)) url.

(** A reply that makes the metadata fetch try again, with the error the
    fetch records for it. *)
Inductive retried : Reply -> error -> Prop :=
| retried_transport err :
    retried (TransportError err) err
| retried_rate_limited status body bodyErr :
    retried (Response 429 status body bodyErr)
      (ZapError "rate_limited" "too many requests to registry" None)
| retried_status code status body bodyErr :
    400 <= code -> code <> 429 ->
    retried (Response code status body bodyErr)
      (ZapError "http_error" ("HTTP " +:+ pretty code +:+ ": " +:+ body) None)
| retried_decode code status body bodyErr err :
    code < 400 -> json_Decode body = Err err ->
    retried (Response code status body bodyErr)
      (ZapError "parse_error" "failed to parse registry response" (Some err)).

(** A reply that ends the fetch: a status below 400 and a body that
    decodes. *)
Inductive decoded : Reply -> PackageMetadata -> Prop :=
| decoded_ok code status body bodyErr metadata :
    code < 400 -> json_Decode body = Ok metadata ->
    decoded (Response code status body bodyErr) metadata.

(** The versions [resolveVersion] chooses from: the keys of the metadata
    that parse, paired with what they parse to, that satisfy the range. *)
Definition candidate (metadata : PackageMetadata) (constraint : semver_Constraints)
    (v : semver_Version) : Prop :=
  exists version, is_Some (Versions metadata !! version)
                  /\ semver_NewVersion version = Ok v
                  /\ semver_Check constraint v = true.

(** What the statements assume of the semver library: [LessThan] is a
    strict weak order (versions that differ only in build metadata are
    neither below the other), and a string that parses as a version has
    no white space around it. *)
Class SemverOrder : Prop := {
  LessThan_asym a b : semver_LessThan a b = true -> semver_LessThan b a = false;
  LessThan_negtrans a b c :
    semver_LessThan a b = false -> semver_LessThan b c = false ->
    semver_LessThan a c = false
}.

Definition SemverSyntax : Prop :=
  forall s v, semver_NewVersion s = Ok v -> GoStrings.TrimSpace s = s.

(** No range operator in front, and neither of the two tokens. *)
Definition plain (v : string) : Prop :=
  GoStrings.HasPrefix v "^" = false /\ GoStrings.HasPrefix v "~" = false
  /\ GoStrings.HasPrefix v ">" = false /\ GoStrings.HasPrefix v "<" = false
  /\ GoStrings.HasPrefix v "=" = false /\ v <> "latest" /\ v <> "*".

End Registry.

(** Where the archive of a version is kept. *)
Definition cachePath (dm : DownloadManager) (name version : string) : string :=
  Filepath.Join [cacheDir dm; name; version; "package.tgz"].

(** Between [w] and [w'] nothing but registry requests happened: the
    files are the same and no archive was requested. *)
Definition registry_only (w w' : World) : Prop :=
  fs w' = fs w /\ tarball_requests w' = tarball_requests w.

(** From [w] to [w'] the requests [more] were sent, and no other. *)
Definition sent (w w' : World) (more : list Request) : Prop :=
  requests w' = requests w ++ more.

(** The result of a download that succeeds. *)
Definition resultFor (dm : DownloadManager) (name version : string)
    (versionInfo : VersionInfo) : DownloadResult :=
  {| PackageName := name;
     Version := version;
     Path := cachePath dm name version;
     Shasum := registry.Shasum (Dist versionInfo);
     Error := None |}.

Section Pool.
Context `{registry.Env} `{downloader.Env}.
Variables (dm : DownloadManager) (opts : DownloadOptions) (semCap : nat).
Variable deps : list (string * string).

(** The pools a call can be in: what the scheduler can make of the
    goroutines started for [deps], the buffers of the two channels being
    as long as [deps]. *)
Definition reachable (w : World) (p : Pool) : Prop :=
  rtc (pool_step dm opts semCap (length deps)) (pool_init deps w) p.

(** A result on the results channel: what [DownloadPackage] returned for
    one of the dependencies. *)
Definition succeeded (r : DownloadResult) : Prop :=
  (PackageName r, Version r) ∈ deps
  /\ Error r = None
  /\ exists w0 w0', DownloadPackage dm (PackageName r) (Version r) opts w0 = (Ok r, w0').

(** An error on the errors channel: the error [DownloadPackage] returned
    for one of the dependencies, with the dependency in front. *)
Definition failed (e : error) : Prop :=
  exists name version cause w0 w0',
    (name, version) ∈ deps
    /\ DownloadPackage dm name version opts w0 = (Err cause, w0')
    /\ e = WrapError ("failed to download " +:+ name +:+ "@" +:+ version +:+ ": ") cause.

(** What holds of every pool a call can be in. *)
Record pool_inv (p : Pool) : Prop := {
  inv_slots : (length (running p) <= semCap)%nat;
  inv_count : (length (waiting p) + length (running p)
               + length (resultsChan p) + length (errorsChan p) = length deps)%nat;
  inv_waiting : Forall (fun dep => dep ∈ deps) (waiting p);
  inv_running : Forall (fun dep => dep ∈ deps) (running p);
  inv_results : Forall succeeded (resultsChan p);
  inv_errors : Forall failed (errorsChan p)
}.

End Pool.

End Props.

(* ===================================================================== *)
(** ** Vocabulary of the further statements *)
(* ===================================================================== *)

Module MoreProps.
Import registry downloader Props.

(** The kind of an error as [errors.Wrap] sees it: the [Type] of a
    [ZapError], and [unknown] for any other error. *)
Definition errorKind (e : error) : string :=
  match e with
  | ZapError t _ _ => t
  | _ => "unknown"
  end.

(** What an error says of itself: the [Message] of a [ZapError], the
    text of any other error. *)
Definition errorMessage (e : error) : string :=
  match e with
  | ZapError _ m _ => m
  | _ => errors.Error e
  end.

(** The world when the request of attempt number [attempt] is sent: the
    first attempt is made at once, the others after a pause. *)
Definition sleepBefore (c : RegistryClient) (attempt : Z) (w : World) : World :=
  if decide (0 < attempt)
  then time_Sleep (wrap64 (RetryDelay (retryConfig c) * attempt)) w
  else w.

(** The dependency a result is for, and where its archive is kept. *)
Definition resultKey (r : DownloadResult) : string * string :=
  (PackageName r, Version r).

Definition archivePath (dm : DownloadManager) (dep : string * string) : string :=
  cachePath dm dep.1 dep.2.

(** The file a result names holds what the result says. *)
Definition verified (w : World) (r : DownloadResult) : Prop :=
  exists content, fs w !! Path r = Some content /\ sha1_hex content = Shasum r.

(** The books of a pool started for [deps] in the world [w]: every
    dependency is waiting, running, on the results channel, or among
    [failedDeps], those whose error is on the errors channel; and what
    the pool has done to the world so far. *)
Record ledger (dm : DownloadManager) (deps : list (string * string)) (w : World)
    (p : Pool) (failedDeps : list (string * string)) : Prop := {
  ledger_failed : length failedDeps = length (errorsChan p);
  ledger_all :
    waiting p ++ running p ++ (resultKey <$> resultsChan p) ++ failedDeps ≡ₚ deps;
  ledger_paths : Forall (fun r => Path r = archivePath dm (resultKey r)) (resultsChan p);
  ledger_frame :
    forall path, (forall dep, dep ∈ deps -> path <> archivePath dm dep) ->
                 fs (world p) !! path = fs w !! path;
  ledger_transfers :
    exists more, tarball_requests (world p) = tarball_requests w ++ more
                 /\ (length more <= length (resultsChan p) + length (errorsChan p))%nat;
  ledger_verified :
    NoDup (archivePath dm <$> deps) -> Forall (verified (world p)) (resultsChan p)
}.

(** Reads in a row, each into a buffer of the given length: what each
    returned, and the reader afterwards. *)
Fixpoint readAll {S : Type} (reader : progress.Reader S) (s : S) (sizes : list nat)
    : list (string * progress.ReadError) * S :=
  match sizes with
  | [] => ([], s)
  | bufSize :: rest =>
      let '(out, s1) := reader s bufSize in
      let '(outs, s2) := readAll reader s1 rest in
      (out :: outs, s2)
  end.

(** The bytes a row of reads delivered, and whether one of them met the
    end of the input. *)
Definition bytesRead (outs : list (string * progress.ReadError)) : Z :=
  foldr (fun out acc => Z.of_nat (String.length out.1) + acc) 0 outs.

Definition sawEOF (outs : list (string * progress.ReadError)) : bool :=
  existsb (fun out => match out.2 with progress.EOF => true | _ => false end) outs.

(** The sum of the amounts added to a bar. *)
Definition sumZ (ns : list Z) : Z := foldr Z.add 0 ns.

(** Whether the byte occurs in the string. *)
Fixpoint hasByte (c : ascii) (s : string) : bool :=
  match s with
  | "" => false
  | String a s' => if decide (a = c) then true else hasByte c s'
  end.

(** What [errors.Wrap] keeps as the cause: the [Err] of a [ZapError],
    any other error itself; and the message a [ZapError] brings along. *)
Definition errorCause (e : error) : option error :=
  match e with
  | ZapError _ _ cause => cause
  | _ => Some e
  end.

Definition ownMessage (e : error) : list string :=
  match e with
  | ZapError _ m _ => [m]
  | _ => []
  end.

(** Every byte of the string is in the class. *)
Fixpoint allBytes (p : ascii -> bool) (s : string) : bool :=
  match s with
  | "" => true
  | String a s' => p a && allBytes p s'
  end.

Definition concatAll (pieces : list string) : string := foldr String.append "" pieces.

(** The strings a pattern stands for. *)
Fixpoint Matches (r : regexp.Regexp) (s : string) : Prop :=
  match r with
  | regexp.NoMatch => False
  | regexp.EmptyMatch => s = ""
  | regexp.CharClass ranges => exists a, s = String a "" /\ regexp.in_class ranges a = true
  | regexp.Concat r1 r2 => exists s1 s2, s = s1 +:+ s2 /\ Matches r1 s1 /\ Matches r2 s2
  | regexp.Alternate r1 r2 => Matches r1 s \/ Matches r2 s
  | regexp.Star r1 => exists pieces, s = concatAll pieces /\ Forall (Matches r1) pieces
  end.

Definition isDigit (a : ascii) : bool :=
  (48 <=? nat_of_ascii a)%nat && (nat_of_ascii a <=? 57)%nat.

Definition isLower (a : ascii) : bool :=
  (97 <=? nat_of_ascii a)%nat && (nat_of_ascii a <=? 122)%nat.

(** A byte that is printed and is not a blank. *)
Definition visibleASCII (a : ascii) : bool :=
  (33 <=? nat_of_ascii a)%nat && (nat_of_ascii a <=? 126)%nat.

(** One digit or more. *)
Definition digits (s : string) : Prop := s <> "" /\ allBytes isDigit s = true.

(** Three runs of digits with dots between. *)
Definition tripleOf (s : string) : Prop :=
  exists a b c, s = a +:+ "." +:+ b +:+ "." +:+ c /\ digits a /\ digits b /\ digits c.

(** The dependency versions [validateDependency] lets through: a triple,
    bare or behind a caret, a tilde or [>=]; [latest]; the star; and a
    [file:] or [git+https://] reference of one line. *)
Definition acceptedDependency (v : string) : Prop :=
  (exists op t, op ∈ [""; "^"; "~"; ">="] /\ tripleOf t /\ v = op +:+ t)
  \/ v = "latest"
  \/ v = "*"
  \/ exists rest, (v = "file:" +:+ rest \/ v = "git+https://" +:+ rest)
                  /\ hasByte "010" rest = false.

(** The bytes of a package name: a small letter, a digit, [-] or [~] in
    front, then [.] and [_] as well; a scope may have a star besides. *)
Definition nameStart (a : ascii) : bool :=
  isLower a || isDigit a || bool_decide (a = "-"%char) || bool_decide (a = "~"%char).
Definition nameByte (a : ascii) : bool :=
  nameStart a || bool_decide (a = "."%char) || bool_decide (a = "_"%char).
Definition scopeStart (a : ascii) : bool := nameStart a || bool_decide (a = "*"%char).
Definition scopeByte (a : ascii) : bool := nameByte a || bool_decide (a = "*"%char).

Definition plainName (s : string) : Prop :=
  exists a rest, s = String a rest /\ nameStart a = true /\ allBytes nameByte rest = true.
Definition scopeName (s : string) : Prop :=
  exists a rest, s = String a rest /\ scopeStart a = true /\ allBytes scopeByte rest = true.

(** The names [validateName] lets through: a plain name, or a scope and
    a plain name as [@scope/name], of 214 bytes at most. *)
Definition acceptedName (name : string) : Prop :=
  (String.length name <= 214)%nat
  /\ (plainName name
      \/ exists scope pkg, name = "@" +:+ scope +:+ "/" +:+ pkg
                           /\ scopeName scope /\ plainName pkg).

(** A number written without a zero in front. *)
Definition numeralString (s : string) : Prop :=
  s = "0"
  \/ exists a rest, s = String a rest /\ isDigit a = true /\ a <> "0"%char
                    /\ allBytes isDigit rest = true.

End MoreProps.

Import registry downloader Props MoreProps.

(* ===================================================================== *)
(** ** The model on the repository's tests *)
(* ===================================================================== *)

(** The digests of the three standard test messages of SHA-1. *)
Example sha1_hex_empty : sha1_hex "" = "da39a3ee5e6b4b0d3255bfef95601890afd80709".
Proof. by vm_compute. Qed.

Example sha1_hex_abc : sha1_hex "abc" = "a9993e364706816aba3e25717850c26c9cd0d89d".
Proof. by vm_compute. Qed.

Example sha1_hex_two_blocks :
  sha1_hex "abcdbcdecdefdefgefghfghighijhijkijkljklmklmnlmnomnopnopq"
  = "84983e441c3bd26ebaae4aa1f95129e5e54670f1".
Proof. by vm_compute. Qed.

(** ASCII and Unicode spaces are trimmed on both sides (here U+2000 and
    a blank in front, U+00A0 and a tab behind). *)
Example TrimSpace_unicode :
  GoStrings.TrimSpace (GoStrings.bytes_of [226; 128; 128; 32; 49; 194; 160; 9]%nat) = "1".
Proof. by vm_compute. Qed.

(** [TestIsExactVersion], for the rows within the numeric fragment. *)
Example isExactVersion_table :
  map (@isExactVersion Scenario.registryEnv)
      ["1.0.0"; "^1.0.0"; "~1.0.0"; ">1.0.0"; ">=1.0.0"; "latest"; "*"; ""; " 1.0.0 "]
  = [true; false; false; false; false; false; false; false; true].
Proof. by vm_compute. Qed.

(** [TestVersionResolution]. *)
Example resolveVersion_table :
  map (fun constraint =>
         (@resolveVersion Scenario.registryEnv Scenario.client "express" constraint
            Scenario.emptyWorld).1)
      ["4.17.1"; "^4.17.0"; "~4.17.0"; ">=4.17.0"; "invalid"; "^99.0.0"]
  = [Ok "4.17.1"; Ok "4.17.1"; Ok "4.17.1"; Ok "4.17.1";
     Err (WrapError "invalid version constraint invalid: "
            (ErrorString "improper constraint: invalid"));
     Err (ErrorString "no version found matching constraint ^99.0.0")].
Proof. by vm_compute. Qed.

(** [TestGetPackageMetadata]: the three failing packages, each asked
    four times. *)
Example GetPackageMetadata_errors :
  map (fun name =>
         let '(r, w) := @GetPackageMetadata Scenario.registryEnv Scenario.client name
                          Scenario.emptyWorld in
         (r, length (requests w)))
      ["nonexistent"; "ratelimit"; "malformed"]
  = [(Err (ZapError "http_error"
             "failed to fetch metadata for package nonexistent: HTTP 404: " None), 4%nat);
     (Err (ZapError "rate_limited"
             "failed to fetch metadata for package ratelimit: too many requests to registry"
             None), 4%nat);
     (Err (ZapError "parse_error"
             "failed to fetch metadata for package malformed: failed to parse registry response"
             (Some (ErrorString "invalid character in JSON document"))), 4%nat)].
Proof. by vm_compute. Qed.

(** [TestGetLatestVersion]. *)
Example GetLatestVersion_express :
  (@GetLatestVersion Scenario.registryEnv Scenario.client "express" Scenario.emptyWorld).1
  = Ok (Scenario.info "express" "4.17.1" Scenario.expressDeps).
Proof. by vm_compute. Qed.

(** [TestChecksumVerification], steps 3 to 6: the tampered file makes the
    cached download fail and is removed, and the next call fetches the
    archive again. *)
Example DownloadPackage_tampered :
  let download := @DownloadPackage Scenario.registryEnv Scenario.downloaderEnv Scenario.dm
                    "express" "4.17.1" Scenario.useCache in
  let '(r1, w1) := download Scenario.tamperedWorld in
  let '(r2, w2) := download w1 in
  r1 = Err (WrapError "cache validation failed: "
              (ErrorString ("checksum mismatch in cached file (expected: "
                            +:+ sha1_hex (Scenario.content "express" "4.17.1")
                            +:+ ", got: " +:+ sha1_hex "deliberately corrupted content"
                            +:+ ")")))
  /\ fs w1 !! Scenario.expressPath = None
  /\ is_Ok r2 = true
  /\ fs w2 !! Scenario.expressPath = Some (Scenario.content "express" "4.17.1").
Proof. by vm_compute. Qed.

(* ===================================================================== *)
(** ** The registry client: retries *)
(* ===================================================================== *)

Section RetryProofs.
Context `{registry.Env}.

Lemma requests_time_Sleep d w : requests (time_Sleep d w) = requests w.
Proof. unfold time_Sleep. by case_decide. Qed.

Lemma fs_time_Sleep d w : fs (time_Sleep d w) = fs w.
Proof. unfold time_Sleep. by case_decide. Qed.

Lemma reply_at_shift history url i :
  reply_at (history ++ [RegistryGet url]) url i = reply_at history url (S i).
Proof. unfold reply_at. by rewrite <- app_assoc. Qed.

Lemma reply_at_0 history url : reply_at history url 0 = httpClient_Get history url.
Proof. unfold reply_at. simpl. by rewrite app_nil_r. Qed.

(** One turn of the loop on a reply that is retried. *)
Lemma fetchAttempts_retried c url n attempt lastErr w err :
  retried (reply_at (requests w) url 0) err ->
  exists w1, requests w1 = requests w ++ [RegistryGet url] /\ fs w1 = fs w /\
    fetchAttempts c url (S n) attempt lastErr w
    = fetchAttempts c url n (attempt + 1) (Some err) w1.
Proof.
  intros Hr. rewrite reply_at_0 in Hr. cbn [fetchAttempts].
  set (w1 := if decide (0 < attempt) then _ else w).
  assert (Hreq : requests w1 = requests w).
  { subst w1. case_decide; [apply requests_time_Sleep | done]. }
  assert (Hfs : fs w1 = fs w).
  { subst w1. case_decide; [apply fs_time_Sleep | done]. }
  exists (record_request (RegistryGet url) w1).
  split; [by simpl; rewrite Hreq |]. split; [done |].
  rewrite Hreq. clearbody w1.
  destruct Hr as [e | st b be | code st b be Hge Hne | code st b be e Hlt Hdec].
  - done.
  - by rewrite decide_True.
  - rewrite decide_False by done. by rewrite decide_True.
  - rewrite decide_False by lia. rewrite decide_False by lia. by rewrite Hdec.
Qed.



(** Nothing but retried replies: the loop runs out and returns the error
    of the last one. *)
Lemma fetchAttempts_exhausted c url n :
  forall attempt lastErr w err,
    (forall i, (i < n)%nat -> exists e, retried (reply_at (requests w) url i) e) ->
    retried (reply_at (requests w) url n) err ->
    exists w', fetchAttempts c url (S n) attempt lastErr w = ((Some err, zeroMetadata), w')
               /\ requests w' = requests w ++ replicate (S n) (RegistryGet url)
               /\ fs w' = fs w.
Proof.
  induction n as [|n IH]; intros attempt lastErr w err Hfail Hlast.
  - destruct (fetchAttempts_retried c url 0 attempt lastErr w err Hlast)
      as (w1 & Hreq & Hfs & ->).
    by exists w1.
  - destruct (Hfail 0%nat ltac:(lia)) as [e0 He0].
    destruct (fetchAttempts_retried c url (S n) attempt lastErr w e0 He0)
      as (w1 & Hreq & Hfs & ->).
    destruct (IH (attempt + 1) (Some e0) w1 err) as (w' & Hrun & Hreq' & Hfs').
    + intros i Hi. rewrite Hreq, reply_at_shift. apply Hfail. lia.
    + by rewrite Hreq, reply_at_shift.
    + exists w'. split; [done |]. split; [| congruence].
      rewrite Hreq', Hreq, <- app_assoc. done.
Qed.

End RetryProofs.

Section RetryTheorem.
Context `{registry.Env}.


End RetryTheorem.


(* ===================================================================== *)
(** ** The registry client: version resolution *)
(* ===================================================================== *)

Section ResolveProofs.
Context `{registry.Env}.

Lemma parseVersions_elem keys v :
  v ∈ parseVersions keys <->
  exists version, version ∈ keys /\ semver_NewVersion version = Ok v.
Proof.
  induction keys as [|k keys IH]; simpl.
  - split; [by intros ?%elem_of_nil | by intros (? & ?%elem_of_nil & _)].
  - destruct (semver_NewVersion k) as [vk|e] eqn:Hk.
    + rewrite elem_of_cons, IH. split.
      * intros [-> | (x & Hx & Hv)];
          [exists k; split; [by left | done] | exists x; split; [by right | done]].
      * intros (x & [-> | Hx]%elem_of_cons & Hv); [left; congruence | right; eauto].
    + rewrite IH. split.
      * intros (x & Hx & Hv). exists x. split; [by right | done].
      * intros (x & [-> | Hx]%elem_of_cons & Hv); [congruence | eauto].
Qed.

Lemma versionKeys_elem metadata version :
  version ∈ versionKeys metadata <-> is_Some (Versions metadata !! version).
Proof.
  unfold versionKeys. rewrite list_elem_of_fmap. split.
  - intros ([k x] & -> & Hin). apply elem_of_map_to_list in Hin. by exists x.
  - intros [x Hx]. exists (version, x). split; [done |]. by apply elem_of_map_to_list.
Qed.

Lemma candidate_parsed metadata constraint v :
  candidate metadata constraint v <->
  v ∈ parseVersions (versionKeys metadata) /\ semver_Check constraint v = true.
Proof.
  unfold candidate. rewrite parseVersions_elem. split.
  - intros (k & Hk & Hv & Hc). split; [| done]. exists k. by rewrite versionKeys_elem.
  - intros [(k & Hk & Hv) Hc]. exists k. by rewrite <- versionKeys_elem.
Qed.

Section Ordered.
Context `{!SemverOrder}.

#[local] Instance descending_total : Total descending.
Proof.
  intros a b. unfold descending.
  destruct (semver_LessThan a b) eqn:Hab; [right | by left].
  by apply LessThan_asym.
Qed.

#[local] Instance descending_trans : Transitive descending.
Proof. intros a b c. apply LessThan_negtrans. Qed.

Lemma descending_refl a : descending a a.
Proof. destruct (descending_total a a); done. Qed.

Lemma sortDescending_sorted l : StronglySorted descending (sortDescending l).
Proof. apply StronglySorted_merge_sort; apply _. Qed.

Lemma sortDescending_elem l v : v ∈ sortDescending l <-> v ∈ l.
Proof. unfold sortDescending. by rewrite merge_sort_Permutation. Qed.

(** In a list sorted downwards, the first element that passes a test is
    not below any other that passes it. *)
Lemma find_sorted_highest (f : semver_Version -> bool) l v :
  StronglySorted descending l ->
  List.find f l = Some v ->
  v ∈ l /\ f v = true /\ forall v', v' ∈ l -> f v' = true -> descending v v'.
Proof.
  induction 1 as [|x l Hsorted IH Hall]; simpl; [done |].
  destruct (f x) eqn:Hfx.
  - intros [= ->]. split; [by left |]. split; [done |].
    intros v' [-> | Hin]%elem_of_cons _; [apply descending_refl |].
    rewrite Forall_forall in Hall. by apply Hall.
  - intros Hfind. destruct (IH Hfind) as (Hin & Hfv & Hmax).
    split; [by right |]. split; [done |].
    intros v' [-> | Hin']%elem_of_cons Hfv'; [congruence | by apply Hmax].
Qed.

Lemma find_none_elem {A} (f : A -> bool) l :
  List.find f l = None -> forall x, x ∈ l -> f x = false.
Proof.
  intros Hnone x Hin. apply list_elem_of_In in Hin.
  by apply (List.find_none f l Hnone).
Qed.

(** The choice among the keys, in whatever order the map yields them. *)
Lemma pickVersion_highest vc constraint keys :
  (exists v,
      v ∈ parseVersions keys /\ semver_Check constraint v = true
      /\ (forall v', v' ∈ parseVersions keys -> semver_Check constraint v' = true ->
                     semver_LessThan v v' = false)
      /\ pickVersion vc constraint keys = Ok (semver_String v))
  \/ ((forall v, v ∈ parseVersions keys -> semver_Check constraint v = false)
      /\ pickVersion vc constraint keys
         = Err (ErrorString ("no version found matching constraint " +:+ vc))).
Proof.
  unfold pickVersion.
  destruct (List.find (semver_Check constraint) (sortDescending (parseVersions keys)))
    as [v|] eqn:Hfind.
  - left. exists v.
    destruct (find_sorted_highest _ _ _ (sortDescending_sorted _) Hfind) as (Hin & Hv & Hmax).
    rewrite sortDescending_elem in Hin.
    split; [done |]. split; [done |]. split; [| done].
    intros v' Hin' Hv'. apply Hmax; [| done]. by rewrite sortDescending_elem.
  - right. split; [| done].
    intros v Hin. rewrite <- sortDescending_elem in Hin.
    by apply (find_none_elem _ _ Hfind).
Qed.

End Ordered.

(** What [resolveVersion] does once the constraint is known not to be an
    exact version. *)
Lemma resolveVersion_unfold c name vc w :
  isExactVersion vc = false ->
  resolveVersion c name vc w =
  match GetPackageMetadata c name w with
  | (Err e, w1) => (Err (WrapError "failed to get package metadata: " e), w1)
  | (Ok metadata, w1) =>
      match semver_NewConstraint vc with
      | Err err => (Err (WrapError ("invalid version constraint " +:+ vc +:+ ": ") err), w1)
      | Ok constraint => (pickVersion vc constraint (versionKeys metadata), w1)
      end
  end.
Proof.
  intros Hex. unfold resolveVersion. rewrite Hex. unfold bind, wrapping.
  destruct (GetPackageMetadata c name w) as [[metadata|e] w1]; [| done].
  destruct (semver_NewConstraint vc) as [k|e]; [| done].
  by destruct (pickVersion vc k (versionKeys metadata)).
Qed.

End ResolveProofs.

Section ResolveTheorems.
Context `{registry.Env}.

(** C1.  [resolveVersion] on a constraint that is not an exact version,
    once the metadata [M] is fetched: a constraint that does not parse as
    a range gives the invalid-constraint error; otherwise the keys of
    [M.versions] that parse are the versions to choose from (the others
    are skipped), and the call returns the rendering of one that
    satisfies the range and is not below any other that does, or the
    no-matching-version error when none satisfies it. *)
Theorem resolveVersion_highest (c : RegistryClient) (name versionConstraint : string)
    (metadata : PackageMetadata) (w w1 : World) :
  SemverOrder ->
  isExactVersion versionConstraint = false ->
  GetPackageMetadata c name w = (Ok metadata, w1) ->
  match semver_NewConstraint versionConstraint with
  | Err err =>
      resolveVersion c name versionConstraint w
      = (Err (WrapError ("invalid version constraint " +:+ versionConstraint +:+ ": ") err), w1)
  | Ok constraint =>
      (exists v,
          candidate metadata constraint v
          /\ (forall v', candidate metadata constraint v' -> semver_LessThan v v' = false)
          /\ resolveVersion c name versionConstraint w = (Ok (semver_String v), w1))
      \/ ((forall v, ~ candidate metadata constraint v)
          /\ resolveVersion c name versionConstraint w
             = (Err (ErrorString ("no version found matching constraint "
                                  +:+ versionConstraint)), w1))
  end.
Proof.
  intros Hord Hex Hmeta. rewrite (resolveVersion_unfold c name versionConstraint w Hex), Hmeta.
  destruct (semver_NewConstraint versionConstraint) as [k|e]; [| done].
  destruct (pickVersion_highest versionConstraint k (versionKeys metadata))
    as [(v & Hin & Hv & Hmax & ->) | [Hnone ->]].
  - left. exists v. split; [by apply candidate_parsed |]. split; [| done].
    intros v' [Hin' Hv']%candidate_parsed. by apply Hmax.
  - right. split; [| done].
    intros v [Hin Hv]%candidate_parsed. specialize (Hnone v Hin). congruence.
Qed.

(** C6.  A string that parses as a version, has no range operator in
    front and is neither [latest] nor [*] is returned as it is, and the
    world is left as it was: nothing is requested. *)
Theorem resolveVersion_exact (c : RegistryClient) (name v : string) (w : World) parsed :
  SemverSyntax ->
  semver_NewVersion v = Ok parsed ->
  plain v ->
  resolveVersion c name v w = (Ok v, w).
Proof.
  intros Hsyntax Hparse (H1 & H2 & H3 & H4 & H5 & H6 & H7).
  unfold resolveVersion, isExactVersion.
  rewrite (Hsyntax v parsed Hparse), H1, H2, H3, H4, H5, Hparse.
  rewrite !bool_decide_eq_false_2 by done. done.
Qed.


End ResolveTheorems.

(** The reference platform obeys what is assumed of the semver library. *)
Lemma Reference_order s table : @SemverOrder (Reference.registryEnv s table).
Proof.
  split; simpl; unfold Reference.LessThan; intros a b.
  - repeat case_decide; rewrite ?bool_decide_eq_true, ?bool_decide_eq_false; lia.
  - intros c. repeat case_decide; rewrite ?bool_decide_eq_true, ?bool_decide_eq_false; lia.
Qed.

Lemma drop_space_prefix_version_char a l :
  Reference.version_char a = true ->
  GoStrings.drop_space GoStrings.space_prefixes (a :: l) = None.
Proof.
  destruct a as [[] [] [] [] [] [] [] []]; intros Ha;
    first [discriminate Ha | reflexivity].
Qed.

Lemma drop_space_suffix_version_char a l :
  Reference.version_char a = true ->
  GoStrings.drop_space GoStrings.space_suffixes_rev (a :: l) = None.
Proof.
  destruct a as [[] [] [] [] [] [] [] []]; intros Ha;
    first [discriminate Ha | reflexivity].
Qed.

Lemma trim_left_version_chars encs n l :
  GoStrings.drop_space encs [] = None ->
  (forall a l', Reference.version_char a = true -> GoStrings.drop_space encs (a :: l') = None) ->
  forallb Reference.version_char l = true ->
  GoStrings.trim_left encs n l = l.
Proof.
  intros Hnil Hcons Hall. destruct n as [|n]; [done |]. simpl.
  destruct l as [|a l]; [by rewrite Hnil |].
  simpl in Hall. apply andb_true_iff in Hall as [Ha _]. by rewrite Hcons.
Qed.

Lemma TrimSpace_version_chars s :
  forallb Reference.version_char (list_ascii_of_string s) = true ->
  GoStrings.TrimSpace s = s.
Proof.
  intros Hall. unfold GoStrings.TrimSpace.
  rewrite (trim_left_version_chars GoStrings.space_prefixes);
    [| done | apply drop_space_prefix_version_char | done].
  rewrite (trim_left_version_chars GoStrings.space_suffixes_rev);
    [| done | apply drop_space_suffix_version_char |].
  - by rewrite rev_involutive, string_of_list_ascii_of_string.
  - rewrite forallb_forall in Hall. apply forallb_forall.
    intros a Ha. apply Hall. by apply in_rev.
Qed.

Lemma Reference_syntax s table : @SemverSyntax (Reference.registryEnv s table).
Proof.
  intros str v. simpl. unfold Reference.NewVersion.
  destruct (forallb Reference.version_char (list_ascii_of_string str)) eqn:Hall; [| done].
  intros _. by apply TrimSpace_version_chars.
Qed.

(** The caret range of the resolution test: [^4.17.0] over the keys
    [4.17.0] and [4.17.1]. *)
Lemma resolveVersion_highest_witness :
  match @semver_NewConstraint Scenario.registryEnv "^4.17.0" with
  | Err err =>
      @resolveVersion Scenario.registryEnv Scenario.client "express" "^4.17.0"
        Scenario.emptyWorld
      = (Err (WrapError ("invalid version constraint " +:+ "^4.17.0" +:+ ": ") err),
         record_request (RegistryGet "http://registry.test/express") Scenario.emptyWorld)
  | Ok constraint =>
      (exists v,
          @candidate Scenario.registryEnv Scenario.express constraint v
          /\ (forall v', @candidate Scenario.registryEnv Scenario.express constraint v' ->
                         @semver_LessThan Scenario.registryEnv v v' = false)
          /\ @resolveVersion Scenario.registryEnv Scenario.client "express" "^4.17.0"
               Scenario.emptyWorld
             = (Ok (@semver_String Scenario.registryEnv v),
                record_request (RegistryGet "http://registry.test/express")
                  Scenario.emptyWorld))
      \/ ((forall v, ~ @candidate Scenario.registryEnv Scenario.express constraint v)
          /\ @resolveVersion Scenario.registryEnv Scenario.client "express" "^4.17.0"
               Scenario.emptyWorld
             = (Err (ErrorString ("no version found matching constraint " +:+ "^4.17.0")),
                record_request (RegistryGet "http://registry.test/express")
                  Scenario.emptyWorld))
  end.
Proof.
  apply (@resolveVersion_highest Scenario.registryEnv Scenario.client "express" "^4.17.0"
           Scenario.express Scenario.emptyWorld).
  - apply Reference_order.
  - vm_compute. reflexivity.
  - vm_compute. reflexivity.
Defined.

(** The exact version of the resolution test. *)
Lemma resolveVersion_exact_witness :
  @resolveVersion Scenario.registryEnv Scenario.client "express" "4.17.1" Scenario.emptyWorld
  = (Ok "4.17.1", Scenario.emptyWorld).
Proof.
  apply (@resolveVersion_exact Scenario.registryEnv Scenario.client "express" "4.17.1"
           Scenario.emptyWorld (Reference.mkVersion 4 17 1)).
  - apply Reference_syntax.
  - vm_compute. reflexivity.
  - unfold plain. repeat split; first [vm_compute; reflexivity | discriminate].
Defined.



(* ===================================================================== *)
(** ** The registry client leaves the cache alone *)
(* ===================================================================== *)

Lemma registry_only_refl w : registry_only w w.
Proof. done. Qed.

Lemma registry_only_trans w1 w2 w3 :
  registry_only w1 w2 -> registry_only w2 w3 -> registry_only w1 w3.
Proof. intros [? ?] [? ?]. split; congruence. Qed.

Lemma registry_only_sleep d w : registry_only w (time_Sleep d w).
Proof. unfold time_Sleep. by case_decide. Qed.

Lemma registry_only_get url w : registry_only w (record_request (RegistryGet url) w).
Proof.
  split; [done |]. unfold tarball_requests. simpl.
  rewrite List.filter_app. simpl. by rewrite app_nil_r.
Qed.

Section RegistryOnly.
Context `{registry.Env}.

Lemma fetchAttempts_registry_only c url n :
  forall attempt lastErr w, registry_only w (fetchAttempts c url n attempt lastErr w).2.
Proof.
  induction n as [|n IH]; intros attempt lastErr w; [done |].
  cbn [fetchAttempts].
  set (w1 := if decide (0 < attempt) then _ else w).
  assert (Hw1 : registry_only w w1).
  { subst w1. case_decide; [apply registry_only_sleep | done]. }
  assert (Hw2 : registry_only w (record_request (RegistryGet url) w1)).
  { eapply registry_only_trans; [exact Hw1 | apply registry_only_get]. }
  clearbody w1.
  destruct (httpClient_Get (requests w1) url) as [err | code status body bodyErr].
  - eapply registry_only_trans; [exact Hw2 | apply IH].
  - repeat case_decide.
    + eapply registry_only_trans; [exact Hw2 | apply IH].
    + eapply registry_only_trans; [exact Hw2 | apply IH].
    + destruct (json_Decode body).
      * exact Hw2.
      * eapply registry_only_trans; [exact Hw2 | apply IH].
Qed.

Lemma GetPackageMetadata_registry_only c name w :
  registry_only w (GetPackageMetadata c name w).2.
Proof.
  unfold GetPackageMetadata, fetchWithRetry.
  pose proof (fetchAttempts_registry_only c (baseURL c +:+ "/" +:+ name)
                (Z.to_nat (MaxRetries (retryConfig c) + 1)) 0 None w) as Hfetch.
  destruct (fetchAttempts _ _ _ _ _ _) as [[[e|] m] w']; exact Hfetch.
Qed.

Lemma resolveVersion_registry_only c name vc w :
  registry_only w (resolveVersion c name vc w).2.
Proof.
  unfold resolveVersion. destruct (isExactVersion vc); [done |].
  unfold bind, wrapping.
  pose proof (GetPackageMetadata_registry_only c name w) as Hmeta.
  destruct (GetPackageMetadata c name w) as [[metadata|e] w1]; [| done].
  destruct (semver_NewConstraint vc) as [k|e]; [| done].
  by destruct (pickVersion vc k (versionKeys metadata)).
Qed.

Lemma GetPackageVersion_registry_only c name vc w :
  registry_only w (GetPackageVersion c name vc w).2.
Proof.
  unfold GetPackageVersion, bind.
  pose proof (resolveVersion_registry_only c name vc w) as Hres.
  destruct (resolveVersion c name vc w) as [[version|e] w1]; [| done].
  pose proof (GetPackageMetadata_registry_only c name w1) as Hmeta.
  destruct (GetPackageMetadata c name w1) as [[metadata|e] w2];
    [| by eapply registry_only_trans].
  destruct (Versions metadata !! version); by eapply registry_only_trans.
Qed.

(** Every fetch of metadata sends at least one request when the retry
    count is not negative. *)
Lemma fetchAttempts_requests c url n :
  forall attempt lastErr w,
    exists more, requests (fetchAttempts c url (S n) attempt lastErr w).2
                 = requests w ++ RegistryGet url :: more.
Proof.
  induction n as [|n IH]; intros attempt lastErr w.
  - cbn [fetchAttempts].
    set (w1 := if decide (0 < attempt) then _ else w).
    assert (Hreq : requests w1 = requests w).
    { subst w1. case_decide; [apply requests_time_Sleep | done]. }
    clearbody w1. exists [].
    destruct (httpClient_Get (requests w1) url) as [err | code status body bodyErr];
      [by simpl; rewrite Hreq |].
    repeat case_decide; try (by simpl; rewrite Hreq).
    destruct (json_Decode body); by simpl; rewrite Hreq.
  - remember (S n) as m eqn:Hm. cbn [fetchAttempts].
    set (w1 := if decide (0 < attempt) then _ else w).
    assert (Hreq : requests w1 = requests w).
    { subst w1. case_decide; [apply requests_time_Sleep | done]. }
    clearbody w1. subst m.
    assert (Hnext : forall lastErr',
      exists more,
        requests (fetchAttempts c url (S n) (attempt + 1) lastErr'
                    (record_request (RegistryGet url) w1)).2
        = requests w ++ RegistryGet url :: more).
    { intros lastErr'.
      destruct (IH (attempt + 1) lastErr' (record_request (RegistryGet url) w1))
        as [more Hmore].
      exists (RegistryGet url :: more). rewrite Hmore. simpl.
      by rewrite Hreq, <- app_assoc. }
    destruct (httpClient_Get (requests w1) url) as [err | code status body bodyErr];
      [apply Hnext |].
    repeat case_decide; try apply Hnext.
    destruct (json_Decode body); [| apply Hnext].
    exists []. by simpl; rewrite Hreq.
Qed.

Lemma fetchAttempts_sent c url n attempt lastErr w :
  exists more, sent w (fetchAttempts c url n attempt lastErr w).2 more.
Proof.
  destruct n as [|n].
  - exists []. unfold sent. simpl. by rewrite app_nil_r.
  - destruct (fetchAttempts_requests c url n attempt lastErr w) as [more Hmore]. eauto.
Qed.

Lemma GetPackageMetadata_sent c name w :
  exists more, sent w (GetPackageMetadata c name w).2 more
               /\ (0 <= MaxRetries (retryConfig c) -> more <> []).
Proof.
  unfold GetPackageMetadata, fetchWithRetry.
  destruct (decide (0 <= MaxRetries (retryConfig c))) as [Hpos | Hneg].
  - replace (Z.to_nat (MaxRetries (retryConfig c) + 1))
      with (S (Z.to_nat (MaxRetries (retryConfig c)))) by lia.
    destruct (fetchAttempts_requests c (baseURL c +:+ "/" +:+ name)
                (Z.to_nat (MaxRetries (retryConfig c))) 0 None w) as [more Hmore].
    exists (RegistryGet (baseURL c +:+ "/" +:+ name) :: more).
    split; [| done].
    by destruct (fetchAttempts _ _ _ _ _ _) as [[[e|] m] w'].
  - destruct (fetchAttempts_sent c (baseURL c +:+ "/" +:+ name)
                (Z.to_nat (MaxRetries (retryConfig c) + 1)) 0 None w) as [more Hmore].
    exists more. split; [| done].
    by destruct (fetchAttempts _ _ _ _ _ _) as [[[e|] m] w'].
Qed.

Lemma sent_trans w1 w2 w3 more1 more2 :
  sent w1 w2 more1 -> sent w2 w3 more2 -> sent w1 w3 (more1 ++ more2).
Proof. unfold sent. intros H1 H2. by rewrite H2, H1, app_assoc. Qed.

Lemma resolveVersion_sent c name vc w :
  exists more, sent w (resolveVersion c name vc w).2 more
               /\ (forall e, (resolveVersion c name vc w).1 = Err e ->
                              0 <= MaxRetries (retryConfig c) -> more <> []).
Proof.
  unfold resolveVersion. destruct (isExactVersion vc).
  - exists []. split; [| done]. unfold sent. simpl. by rewrite app_nil_r.
  - unfold bind, wrapping.
    destruct (GetPackageMetadata_sent c name w) as (more & Hsent & Hne).
    exists more.
    destruct (GetPackageMetadata c name w) as [[metadata|e] w1]; [| by split; [| intros _ _]].
    destruct (semver_NewConstraint vc) as [k|e]; [| by split; [| intros _ _]].
    destruct (pickVersion vc k (versionKeys metadata)); by split; [| intros _ _].
Qed.

(** Whatever the constraint, [GetPackageVersion] asks the registry. *)
Lemma GetPackageVersion_sent c name vc w :
  exists more, sent w (GetPackageVersion c name vc w).2 more
               /\ (0 <= MaxRetries (retryConfig c) -> more <> []).
Proof.
  destruct (resolveVersion_sent c name vc w) as (more1 & Hsent1 & Hne1).
  unfold GetPackageVersion, bind.
  destruct (resolveVersion c name vc w) as [[version|e] w1]; simpl in Hsent1, Hne1.
  - destruct (GetPackageMetadata_sent c name w1) as (more2 & Hsent2 & Hne2).
    exists (more1 ++ more2). split.
    + destruct (GetPackageMetadata c name w1) as [[metadata|e] w2];
        [destruct (Versions metadata !! version) |]; by eapply sent_trans.
    + intros Hpos Hnil. apply app_eq_nil in Hnil as [_ Hnil]. by apply Hne2.
  - exists more1. split; [done |]. by apply (Hne1 e).
Qed.

End RegistryOnly.

(* ===================================================================== *)
(** ** Paths *)
(* ===================================================================== *)

Lemma string_app_assoc (a b c : string) : (a +:+ b) +:+ c = a +:+ b +:+ c.
Proof.
  induction a as [|x a IH]; [done |].
  change (String x ((a +:+ b) +:+ c) = String x (a +:+ b +:+ c)). by rewrite IH.
Qed.

Lemma nonempty_app a s rest : Filepath.nonempty (String a s +:+ rest) = true.
Proof. reflexivity. Qed.

(** The path the downloader writes is the path the cache layer reads. *)
Lemma targetPath_cachePath (cacheDir name version : string) :
  Filepath.Join [Filepath.Join [cacheDir; name; version]; "package.tgz"]
  = Filepath.Join [cacheDir; name; version; "package.tgz"].
Proof.
  destruct cacheDir as [|a1 s1], name as [|a2 s2], version as [|a3 s3];
    try reflexivity; unfold Filepath.Join; cbn;
    rewrite nonempty_app; cbn; rewrite ?string_app_assoc; reflexivity.
Qed.

(* ===================================================================== *)
(** ** The cache layer *)
(* ===================================================================== *)

Section CacheProofs.
Context `{downloader.Env}.



(** A hit tells what the file holds. *)
Lemma checkCache_hit dm name version expectedShasum w path w' :
  checkCache dm name version expectedShasum w = ((path, true, None), w') ->
  w' = w /\ path = cachePath dm name version
  /\ exists content, fs w !! path = Some content /\ sha1_hex content = expectedShasum.
Proof.
  unfold cachePath, checkCache, os_Stat, os_ReadFile.
  destruct (fs w !! Filepath.Join [cacheDir dm; name; version; "package.tgz"])
    as [content|] eqn:Hfile; [| done].
  destruct (os_fault w _); [done |].
  case_decide as Hsum; [done |].
  intros [= <- <-]. split; [done |]. split; [done |].
  exists content. split; [done |]. by destruct (decide (sha1_hex content = expectedShasum)).
Qed.

Lemma checkCache_miss dm name version expectedShasum w path w' :
  checkCache dm name version expectedShasum w = ((path, false, None), w') -> w' = w.
Proof.
  unfold checkCache, os_Stat, os_ReadFile.
  destruct (fs w !! _); [| by intros [= <-]].
  destruct (os_fault w _); [by intros [= <-] |].
  case_decide; [done | done].
Qed.

End CacheProofs.



(* ===================================================================== *)
(** ** Transfers *)
(* ===================================================================== *)

Section TransferProofs.
Context `{downloader.Env}.

(** A transfer that succeeds leaves the verified archive at the target
    path, after one request to the archive host. *)
Lemma downloadFile_ok dm url targetPath expectedShasum showProgress w w' :
  downloadFile dm url targetPath expectedShasum showProgress w = (Ok tt, w') ->
  (exists content, fs w' !! targetPath = Some content /\ sha1_hex content = expectedShasum)
  /\ tarball_requests w' = tarball_requests w ++ [TarballGet url].
Proof.
  unfold downloadFile, bind, wrapping, os_MkdirAll, os_Create.
  destruct (os_fault w (OpMkdirAll _)); [done |].
  destruct (os_fault w (OpCreate _)); [done |].
  destruct (http_NewRequest url); [done |].
  simpl.
  destruct (client_Do (requests w) url) as [err | code status body bodyErr]; [done |].
  case_decide; [done |].
  unfold io_Copy. simpl.
  destruct (os_fault _ (OpWrite targetPath)); [done |].
  destruct bodyErr; [done |].
  case_decide as Hsum; [done |].
  intros [= <-]. split.
  - exists body. split; [simpl; apply lookup_insert_eq |].
    by destruct (decide (sha1_hex body = expectedShasum)).
  - unfold tarball_requests. simpl. by rewrite List.filter_app.
Qed.



End TransferProofs.

(** C2 at the input on which the code departs from it: the archive host
    answers 404.  [downloadFile] returns the error and leaves, at the
    target path, the empty file it created, whose digest is not the
    expected one. *)
Theorem downloadFile_http_error_leaves_file :
  exists w',
    @downloadFile Scenario.offlineEnv Scenario.dm
      (Scenario.tarballURL "express" "4.17.1") Scenario.expressPath
      (sha1_hex (Scenario.content "express" "4.17.1")) false Scenario.emptyWorld
    = (Err (ErrorString "failed to download file (status 404): 404 Not Found"), w')
    /\ fs w' !! Scenario.expressPath = Some ""
    /\ sha1_hex "" <> sha1_hex (Scenario.content "express" "4.17.1").
Proof.
  eexists. split; [by vm_compute |]. split; [by vm_compute | by vm_compute].
Qed.

(* ===================================================================== *)
(** ** Single-package downloads *)
(* ===================================================================== *)

Section PackageProofs.
Context `{registry.Env} `{downloader.Env}.

(** A call that succeeds went one of two ways: the cache was valid and
    nothing was transferred, or one archive was transferred.  Either way
    the verified archive is at the cache path afterwards. *)
Lemma DownloadPackage_ok dm name version opts w r w' :
  DownloadPackage dm name version opts w = (Ok r, w') ->
  exists versionInfo w1,
    GetPackageVersion (registry dm) name version w = (Ok versionInfo, w1)
    /\ r = resultFor dm name version versionInfo
    /\ (exists content, fs w' !! cachePath dm name version = Some content
                        /\ sha1_hex content = registry.Shasum (Dist versionInfo))
    /\ ((w' = w1 /\ is_Some (fs w1 !! cachePath dm name version))
        \/ tarball_requests w'
           = tarball_requests w1 ++ [TarballGet (Tarball (Dist versionInfo))]).
Proof.
  unfold DownloadPackage, bind, wrapping.
  destruct (GetPackageVersion (registry dm) name version w) as [[vi|e] w1] eqn:Hget; [| done].
  intros Hrun. exists vi, w1. split; [done |].
  assert (Hdownload :
    (let* _ := downloadFile dm (Tarball (Dist vi))
                 (Filepath.Join [Filepath.Join [cacheDir dm; name; version]; "package.tgz"])
                 (registry.Shasum (Dist vi)) (ShowProgress opts) in
     ret {| PackageName := name; Version := version;
            Path := Filepath.Join [Filepath.Join [cacheDir dm; name; version]; "package.tgz"];
            Shasum := registry.Shasum (Dist vi); Error := None |}) w1 = (Ok r, w') ->
    r = resultFor dm name version vi
    /\ (exists content, fs w' !! cachePath dm name version = Some content
                        /\ sha1_hex content = registry.Shasum (Dist vi))
    /\ tarball_requests w' = tarball_requests w1 ++ [TarballGet (Tarball (Dist vi))]).
  { unfold bind, ret. rewrite targetPath_cachePath.
    destruct (downloadFile dm _ _ _ _ w1) as [[[]|e] w2] eqn:Hdl; [| done].
    intros [= <- <-]. apply downloadFile_ok in Hdl as [Hfile Htar]. done. }
  destruct (UseCache opts).
  - unfold cacheLookup in Hrun.
    destruct (checkCache dm name version (registry.Shasum (Dist vi)) w1)
      as [[[path found] [err|]] w2] eqn:Hcache; destruct found; simpl in Hrun;
      [done | done | |].
    + apply checkCache_hit in Hcache as (-> & -> & content & Hfile & Hsum).
      injection Hrun as <- <-.
      split; [done |]. split; [by exists content |]. left. split; [done | by exists content].
    + apply checkCache_miss in Hcache as ->.
      destruct (Hdownload Hrun) as (? & ? & ?). eauto.
  - destruct (Hdownload Hrun) as (? & ? & ?). eauto.
Qed.


Lemma sent_same w w' : requests w' = requests w -> sent w w' [].
Proof. unfold sent. intros ->. by rewrite app_nil_r. Qed.

Lemma downloadFile_sent dm url targetPath expectedShasum showProgress w :
  exists more, sent w (downloadFile dm url targetPath expectedShasum showProgress w).2 more.
Proof.
  unfold downloadFile, bind, wrapping, os_MkdirAll, os_Create, io_Copy.
  destruct (os_fault w (OpMkdirAll _)); [exists []; by apply sent_same |].
  destruct (os_fault w (OpCreate _)); [exists []; by apply sent_same |].
  destruct (http_NewRequest url); [exists []; by apply sent_same |].
  exists [TarballGet url]. simpl.
  destruct (client_Do (requests w) url) as [err | code status body bodyErr]; [done |].
  case_decide; [done |].
  destruct (os_fault _ (OpWrite targetPath)); [done |].
  destruct bodyErr; [done |]. by case_decide.
Qed.

Lemma checkCache_requests dm name version expectedShasum w :
  requests (checkCache dm name version expectedShasum w).2 = requests w.
Proof.
  unfold checkCache, os_Stat, os_ReadFile.
  destruct (fs w !! _); [| done].
  destruct (os_fault w _); [done |]. by case_decide.
Qed.

(** No call of [DownloadPackage] does without the network: the registry
    is asked before the cache is looked at. *)
Lemma DownloadPackage_contacts_registry dm name version opts w :
  0 <= MaxRetries (retryConfig (registry dm)) ->
  exists more, sent w (DownloadPackage dm name version opts w).2 more /\ more <> [].
Proof.
  intros Hpos.
  destruct (GetPackageVersion_sent (registry dm) name version w) as (more1 & Hsent1 & Hne1).
  specialize (Hne1 Hpos).
  unfold DownloadPackage, bind, wrapping.
  destruct (GetPackageVersion (registry dm) name version w) as [[vi|e] w1];
    simpl in Hsent1; [| by exists more1].
  assert (Hrest : forall w2 (cached : option string),
    sent w1 w2 [] ->
    exists more,
      sent w
        (match cached with
         | Some cachedPath =>
             ret {| PackageName := name; Version := version; Path := cachedPath;
                    Shasum := registry.Shasum (Dist vi); Error := None |}
         | None =>
             let* _ := downloadFile dm (Tarball (Dist vi))
                         (Filepath.Join [Filepath.Join [cacheDir dm; name; version];
                                         "package.tgz"])
                         (registry.Shasum (Dist vi)) (ShowProgress opts) in
             ret {| PackageName := name; Version := version;
                    Path := Filepath.Join [Filepath.Join [cacheDir dm; name; version];
                                           "package.tgz"];
                    Shasum := registry.Shasum (Dist vi); Error := None |}
         end w2).2 more
      /\ more <> []).
  { intros w2 cached Hw2. destruct cached as [cachedPath|].
    - exists more1. split; [| done]. simpl.
      pose proof (sent_trans _ _ _ _ _ Hsent1 Hw2) as Hs. by rewrite app_nil_r in Hs.
    - destruct (downloadFile_sent dm (Tarball (Dist vi))
                  (Filepath.Join [Filepath.Join [cacheDir dm; name; version]; "package.tgz"])
                  (registry.Shasum (Dist vi)) (ShowProgress opts) w2) as [more2 Hsent2].
      exists (more1 ++ more2). split.
      + unfold bind. pose proof (sent_trans _ _ _ _ _ Hsent1 Hw2) as Hs.
        rewrite app_nil_r in Hs.
        destruct (downloadFile dm _ _ _ _ w2) as [[[]|e] w3]; by eapply sent_trans.
      + intros Hnil. by apply app_eq_nil in Hnil as [Hnil _]. }
  destruct (UseCache opts).
  - unfold cacheLookup.
    pose proof (checkCache_requests dm name version (registry.Shasum (Dist vi)) w1) as Hreq.
    destruct (checkCache dm name version (registry.Shasum (Dist vi)) w1)
      as [[[path found] [err|]] w2]; simpl in Hreq; destruct found; simpl.
    + exists more1. split; [| done]. unfold sent in *. congruence.
    + exists more1. split; [| done]. unfold sent in *. congruence.
    + apply (Hrest w2 (Some path)). unfold sent. by rewrite Hreq, app_nil_r.
    + apply (Hrest w2 None). unfold sent. by rewrite Hreq, app_nil_r.
  - apply (Hrest w1 None). by apply sent_same.
Qed.

End PackageProofs.



(* ===================================================================== *)
(** ** The worker pool *)
(* ===================================================================== *)

Section PoolProofs.
Context `{registry.Env} `{downloader.Env}.
Variables (dm : DownloadManager) (opts : DownloadOptions) (semCap : nat).
Variable deps : list (string * string).

Lemma pool_inv_init w : pool_inv dm opts semCap deps (pool_init deps w).
Proof.
  split; simpl; try done.
  - lia.
  - lia.
  - by apply Forall_forall.
Qed.

Lemma pool_inv_step chanCap p p' :
  pool_step dm opts semCap chanCap p p' ->
  pool_inv dm opts semCap deps p -> pool_inv dm opts semCap deps p'.
Proof.
  intros [ev Hfire] [Hslots Hcount Hwait Hrun Hres Herr].
  destruct ev as [i | i]; simpl in Hfire.
  - destruct (waiting p !! i) as [dep|] eqn:Hdep; [| done].
    case_decide as Hfree; [| done]. injection Hfire as <-.
    pose proof (lookup_lt_Some _ _ _ Hdep) as Hlt.
    split; simpl.
    + rewrite length_app. simpl. lia.
    + rewrite length_app, length_delete by eauto. simpl. lia.
    + by apply Forall_delete.
    + apply Forall_app_2; [done |]. apply Forall_cons. split; [| done].
      by apply (Forall_lookup_1 _ _ _ _ Hwait Hdep).
    + done.
    + done.
  - destruct (running p !! i) as [[name version]|] eqn:Hdep; [| done].
    pose proof (lookup_lt_Some _ _ _ Hdep) as Hlt.
    pose proof (Forall_lookup_1 _ _ _ _ Hrun Hdep) as Hin.
    destruct (DownloadPackage dm name version opts (world p)) as [[r|e] w'] eqn:Hdl.
    + case_decide as Hroom; [| done]. injection Hfire as <-.
      pose proof Hdl as Hok.
      apply DownloadPackage_ok in Hok as (vi & w1 & _ & -> & _).
      split; simpl.
      * rewrite length_delete by eauto. lia.
      * rewrite length_app, length_delete by eauto. simpl. lia.
      * done.
      * by apply Forall_delete.
      * apply Forall_app_2; [done |]. apply Forall_cons. split; [| done].
        split; [done |]. split; [done |]. by exists (world p), w'.
      * done.
    + case_decide as Hroom; [| done]. injection Hfire as <-.
      split; simpl.
      * rewrite length_delete by eauto. lia.
      * rewrite length_app, length_delete by eauto. simpl. lia.
      * done.
      * by apply Forall_delete.
      * done.
      * apply Forall_app_2; [done |]. apply Forall_cons. split; [| done].
        by exists name, version, e, (world p), w'.
Qed.

Lemma pool_inv_reachable w p :
  reachable dm opts semCap deps w p -> pool_inv dm opts semCap deps p.
Proof.
  intros Hreach. unfold reachable in Hreach.
  eapply (rtc_ind_r (pool_inv dm opts semCap deps)); [apply pool_inv_init | | exact Hreach].
  intros p1 p2 _ Hstep Hinv. by eapply pool_inv_step.
Qed.


Lemma pool_run_reachable chanCap schedule :
  forall p p', pool_run dm opts semCap chanCap schedule p = Some p' ->
               rtc (pool_step dm opts semCap chanCap) p p'.
Proof.
  induction schedule as [|ev rest IH]; intros p p' Hrun; simpl in Hrun.
  - by injection Hrun as <-.
  - destruct (pool_fire dm opts semCap chanCap ev p) as [p1|] eqn:Hfire; [| done].
    eapply rtc_l; [by exists ev | by apply IH].
Qed.

End PoolProofs.

(* ===================================================================== *)
(** ** Dependency sets *)
(* ===================================================================== *)

Lemma string_app_nil_r (a : string) : a +:+ "" = a.
Proof.
  induction a as [|x a IH]; [done |].
  change (String x (a +:+ "") = String x a). by rewrite IH.
Qed.



Lemma collect_results p : (collect p).1 = resultsChan p.
Proof. unfold collect. by destruct (errorsChan p). Qed.

Lemma semaphoreCapacity_positive opts : 0 < semaphoreCapacity opts.
Proof.
  unfold semaphoreCapacity, setConcurrency, defaultConcurrency.
  case_decide; simpl; lia.
Qed.

Section DependencyTheorems.
Context `{registry.Env} `{downloader.Env}.

(** C3, as the code has it.  The semaphore of [DownloadDependencies] has
    the capacity [opts.Concurrency] when that is positive and
    [defaultConcurrency] otherwise, and however many dependencies there
    are, never more goroutines than that hold a slot, so never more
    transfers than that are in flight. *)
Theorem semaphore_bounds_transfers (dm : DownloadManager) (opts : DownloadOptions) :
  semaphoreCapacity opts
  = (if decide (Concurrency opts <= 0) then defaultConcurrency else Concurrency opts)
  /\ 0 < semaphoreCapacity opts
  /\ forall deps w p,
       reachable dm (setConcurrency opts) (Z.to_nat (semaphoreCapacity opts)) deps w p ->
       Z.of_nat (length (running p)) <= semaphoreCapacity opts.
Proof.
  split; [| split].
  - unfold semaphoreCapacity, setConcurrency. by case_decide.
  - apply semaphoreCapacity_positive.
  - intros deps w p Hreach.
    apply pool_inv_reachable in Hreach as [Hslots _ _ _ _ _].
    pose proof (semaphoreCapacity_positive opts). lia.
Qed.


(** C10.  A [DownloadResult] returned by [DownloadPackage], or found in
    the list returned by [DownloadDependencies], has no [Error]: a
    download that fails makes no result at all and is only told through
    the error returned beside. *)
Theorem DownloadResult_Error_nil (dm : DownloadManager) (name version : string)
    (opts : DownloadOptions) (w : World) :
  (forall r w', DownloadPackage dm name version opts w = (Ok r, w') -> Error r = None)
  /\ (forall results err w',
         DownloadDependencies dm name version opts w (results, err) w' ->
         Forall (fun r => Error r = None) results).
Proof.
  split.
  - intros r w' Hrun. by apply DownloadPackage_ok in Hrun as (vi & w1 & _ & -> & _).
  - intros results err w' Hdd.
    inversion Hdd as [e w2 Hget' | vi w2 Hget' Hnone | vi w2 p Hget' Hsome Hrun Hdone Hcollect];
      subst; [done | done |].
    rewrite <- length_map_to_list in Hrun.
    apply pool_inv_reachable in Hrun as [_ _ _ _ Hres _].
    pose proof (collect_results p) as Hfst. rewrite Hcollect in Hfst. simpl in Hfst.
    subst results. eapply Forall_impl; [exact Hres |].
    by intros r (_ & Hnil & _).
Qed.

End DependencyTheorems.

(** C3, as the specification words it, fails: asked for two transfers
    at a time, the semaphore has two slots, not [max(2, 3)], and with two
    goroutines holding a slot a third cannot take one. *)
Lemma semaphore_capacity_counterexample :
  semaphoreCapacity Scenario.twoAtATime
  <> Z.max (Concurrency Scenario.twoAtATime) defaultConcurrency
  /\ @pool_fire Scenario.registryEnv Scenario.downloaderEnv Scenario.dm
       (setConcurrency Scenario.twoAtATime)
       (Z.to_nat (semaphoreCapacity Scenario.twoAtATime)) 3
       (Acquire 0) Scenario.twoRunning
     = None.
Proof. split; by vm_compute. Qed.

(** Three dependencies, two transfers at a time, two slots taken. *)
Lemma semaphore_bounds_transfers_witness :
  Z.of_nat (length (running Scenario.twoRunning)) <= semaphoreCapacity Scenario.twoAtATime.
Proof.
  apply (proj2 (proj2 (@semaphore_bounds_transfers Scenario.registryEnv
                         Scenario.downloaderEnv Scenario.dm Scenario.twoAtATime))
           Scenario.threeDeps Scenario.emptyWorld).
  unfold reachable.
  apply pool_run_reachable with (schedule := [Acquire 0; Acquire 0]).
  vm_compute. reflexivity.
Defined.

(** The application has one dependency that downloads and one the
    registry does not know: the call returns the one result and the
    combined error. *)
Lemma app_partial_failure :
  exists w',
    @DownloadDependencies Scenario.registryEnv Scenario.downloaderEnv Scenario.dm
      "app" "1.0.0" Scenario.useCache Scenario.emptyWorld
      ([Scenario.cookieResult], Some (combinedError [Scenario.missingError])) w'.
Proof.
  destruct (@pool_run Scenario.registryEnv Scenario.downloaderEnv Scenario.dm
              (setConcurrency Scenario.useCache)
              (Z.to_nat (semaphoreCapacity Scenario.useCache))
              (size (Dependencies Scenario.appInfo))
              [Acquire 0; Acquire 0; Finish 1; Finish 0]
              (pool_init (map_to_list (Dependencies Scenario.appInfo))
                 (record_request (RegistryGet "http://registry.test/app")
                    Scenario.emptyWorld))) as [p|] eqn:Hp;
    [| by vm_compute in Hp].
  exists (world p).
  assert (Hcollect : collect p
                     = ([Scenario.cookieResult], Some (combinedError [Scenario.missingError]))).
  { vm_compute in Hp. injection Hp as <-. by vm_compute. }
  rewrite <- Hcollect.
  apply (DD_pool Scenario.dm "app" "1.0.0" Scenario.useCache Scenario.emptyWorld
           Scenario.appInfo
           (record_request (RegistryGet "http://registry.test/app") Scenario.emptyWorld) p).
  - by vm_compute.
  - by vm_compute.
  - eapply pool_run_reachable. exact Hp.
  - vm_compute in Hp. injection Hp as <-. by split.
Qed.


(** The download of the package test. *)
Lemma DownloadResult_Error_nil_witness :
  Error (@resultFor Scenario.dm "express" "4.17.1"
           (Scenario.info "express" "4.17.1" Scenario.expressDeps)) = None.
Proof.
  apply (proj1 (@DownloadResult_Error_nil Scenario.registryEnv Scenario.downloaderEnv
                  Scenario.dm "express" "4.17.1" Scenario.useCache Scenario.emptyWorld)
           _ (snd (@DownloadPackage Scenario.registryEnv Scenario.downloaderEnv Scenario.dm
                     "express" "4.17.1" Scenario.useCache Scenario.emptyWorld))).
  vm_compute. reflexivity.
Defined.

(* ===================================================================== *)
(** ** Further properties of the registry client *)
(* ===================================================================== *)

Section RegistryCoverage.
Context `{registry.Env}.



End RegistryCoverage.


Lemma wrap64_small x : - 2 ^ 63 <= x < 2 ^ 63 -> wrap64 x = x.
Proof. intros Hx. unfold wrap64. rewrite Z.mod_small; lia. Qed.

Lemma slept_sleepBefore c attempt w :
  0 <= attempt -> 0 <= RetryDelay (retryConfig c) ->
  RetryDelay (retryConfig c) * attempt < 2 ^ 63 ->
  slept (sleepBefore c attempt w) = slept w + RetryDelay (retryConfig c) * attempt.
Proof.
  intros Ha Hd Hsmall. unfold sleepBefore, time_Sleep.
  case_decide as Hpos.
  - rewrite wrap64_small by nia. case_decide; simpl; lia.
  - assert (attempt = 0) as -> by lia. lia.
Qed.

Lemma requests_sleepBefore c attempt w : requests (sleepBefore c attempt w) = requests w.
Proof. unfold sleepBefore. case_decide; [apply requests_time_Sleep | done]. Qed.

Section BackoffProofs.
Context `{registry.Env}.

(** One turn of the loop, with the world it leaves. *)
Lemma fetchAttempts_turn c url n attempt lastErr w :
  (forall err,
      retried (reply_at (requests w) url 0) err ->
      fetchAttempts c url (S n) attempt lastErr w
      = fetchAttempts c url n (attempt + 1) (Some err)
          (record_request (RegistryGet url) (sleepBefore c attempt w)))
  /\ (forall metadata,
         decoded (reply_at (requests w) url 0) metadata ->
         fetchAttempts c url (S n) attempt lastErr w
         = ((None, metadata), record_request (RegistryGet url) (sleepBefore c attempt w))).
Proof.
  rewrite reply_at_0. cbn [fetchAttempts]. fold (sleepBefore c attempt w).
  rewrite requests_sleepBefore.
  generalize (sleepBefore c attempt w). intros w1. split.
  - intros err Hr.
    destruct Hr as [e | st b be | code st b be Hge Hne | code st b be e Hlt Hdec].
    + done.
    + by rewrite decide_True.
    + rewrite decide_False by done. by rewrite decide_True.
    + rewrite decide_False by lia. rewrite decide_False by lia. by rewrite Hdec.
  - intros metadata Hr. destruct Hr as [code st b be m Hlt Hdec].
    rewrite decide_False by lia. rewrite decide_False by lia. by rewrite Hdec.
Qed.

Lemma fetchAttempts_slept_success c url k :
  forall n attempt lastErr w metadata,
    0 <= attempt -> 0 <= RetryDelay (retryConfig c) ->
    RetryDelay (retryConfig c) * (attempt + Z.of_nat k) < 2 ^ 63 ->
    (forall i, (i < k)%nat -> exists err, retried (reply_at (requests w) url i) err) ->
    decoded (reply_at (requests w) url k) metadata ->
    2 * (slept (fetchAttempts c url (k + S n) attempt lastErr w).2 - slept w)
    = RetryDelay (retryConfig c) * (Z.of_nat k + 1) * (2 * attempt + Z.of_nat k).
Proof.
  induction k as [|k IH]; intros n attempt lastErr w metadata Ha Hd Hsmall Hfail Hok.
  - change (0 + S n)%nat with (S n).
    rewrite (proj2 (fetchAttempts_turn c url n attempt lastErr w) metadata Hok).
    simpl. rewrite slept_sleepBefore by (try done; nia). lia.
  - destruct (Hfail 0%nat ltac:(lia)) as [err Herr].
    change (S k + S n)%nat with (S (k + S n)).
    rewrite (proj1 (fetchAttempts_turn c url (k + S n) attempt lastErr w) err Herr).
    set (w2 := record_request (RegistryGet url) (sleepBefore c attempt w)).
    assert (Hreq : requests w2 = requests w ++ [RegistryGet url]).
    { subst w2. simpl. by rewrite requests_sleepBefore. }
    assert (Hslept : slept w2 = slept w + RetryDelay (retryConfig c) * attempt).
    { subst w2. simpl. apply slept_sleepBefore; [done | done | nia]. }
    specialize (IH n (attempt + 1) (Some err) w2 metadata).
    rewrite Hreq in IH.
    assert (Hrec : 2 * (slept (fetchAttempts c url (k + S n) (attempt + 1) (Some err) w2).2
                        - slept w2)
                   = RetryDelay (retryConfig c) * (Z.of_nat k + 1)
                     * (2 * (attempt + 1) + Z.of_nat k)).
    { apply IH; [lia | done | | |].
      - replace (attempt + 1 + Z.of_nat k) with (attempt + Z.of_nat (S k)) by lia. done.
      - intros i Hi. rewrite reply_at_shift. apply Hfail. lia.
      - by rewrite reply_at_shift. }
    rewrite Hslept in Hrec. nia.
Qed.

Lemma fetchAttempts_slept_exhausted c url n :
  forall attempt lastErr w,
    0 <= attempt -> 0 <= RetryDelay (retryConfig c) ->
    RetryDelay (retryConfig c) * (attempt + Z.of_nat n) < 2 ^ 63 ->
    (forall i, (i < n)%nat -> exists err, retried (reply_at (requests w) url i) err) ->
    2 * (slept (fetchAttempts c url n attempt lastErr w).2 - slept w)
    = RetryDelay (retryConfig c) * Z.of_nat n * (2 * attempt + Z.of_nat n - 1).
Proof.
  induction n as [|n IH]; intros attempt lastErr w Ha Hd Hsmall Hfail.
  - simpl. lia.
  - destruct (Hfail 0%nat ltac:(lia)) as [err Herr].
    rewrite (proj1 (fetchAttempts_turn c url n attempt lastErr w) err Herr).
    set (w2 := record_request (RegistryGet url) (sleepBefore c attempt w)).
    assert (Hreq : requests w2 = requests w ++ [RegistryGet url]).
    { subst w2. simpl. by rewrite requests_sleepBefore. }
    assert (Hslept : slept w2 = slept w + RetryDelay (retryConfig c) * attempt).
    { subst w2. simpl. apply slept_sleepBefore; [done | done | nia]. }
    specialize (IH (attempt + 1) (Some err) w2).
    rewrite Hreq in IH.
    assert (Hrec : 2 * (slept (fetchAttempts c url n (attempt + 1) (Some err) w2).2 - slept w2)
                   = RetryDelay (retryConfig c) * Z.of_nat n
                     * (2 * (attempt + 1) + Z.of_nat n - 1)).
    { apply IH; [lia | done | nia |].
      intros i Hi. rewrite reply_at_shift. apply Hfail. lia. }
    rewrite Hslept in Hrec. nia.
Qed.

(** X2.  The pauses between the attempts of [fetchWithRetry] grow
    linearly: nothing before the first attempt and [attempt * RetryDelay]
    before each later one ([RetryDelay] not negative and no product
    beyond [int64]).  So a fetch that decodes after [k] retried replies
    has slept [RetryDelay * k * (k + 1) / 2], and one that runs out
    [RetryDelay * MaxRetries * (MaxRetries + 1) / 2]; [MaxWaitTime] is not
    looked at. *)
Theorem fetchWithRetry_linear_backoff (c : RegistryClient) (url : string) (w : World) :
  0 <= RetryDelay (retryConfig c) ->
  0 <= MaxRetries (retryConfig c) ->
  RetryDelay (retryConfig c) * (MaxRetries (retryConfig c) + 1) < 2 ^ 63 ->
  (forall (k : nat) metadata,
      Z.of_nat k <= MaxRetries (retryConfig c) ->
      (forall i, (i < k)%nat -> exists err, retried (reply_at (requests w) url i) err) ->
      decoded (reply_at (requests w) url k) metadata ->
      2 * (slept (fetchWithRetry c url w).2 - slept w)
      = RetryDelay (retryConfig c) * Z.of_nat k * (Z.of_nat k + 1))
  /\ ((forall i, Z.of_nat i <= MaxRetries (retryConfig c) ->
                 exists err, retried (reply_at (requests w) url i) err) ->
      2 * (slept (fetchWithRetry c url w).2 - slept w)
      = RetryDelay (retryConfig c) * MaxRetries (retryConfig c)
        * (MaxRetries (retryConfig c) + 1)).
Proof.
  intros Hd Hmax Hsmall. unfold fetchWithRetry. split.
  - intros k metadata Hk Hfail Hok.
    replace (Z.to_nat (MaxRetries (retryConfig c) + 1))
      with (k + S (Z.to_nat (MaxRetries (retryConfig c)) - k))%nat by lia.
    rewrite (fetchAttempts_slept_success c url k _ 0 None w metadata); [lia | lia | done | | done | done].
    nia.
  - intros Hfail.
    rewrite (fetchAttempts_slept_exhausted c url _ 0 None w); [| lia | done | | ].
    + rewrite Z2Nat.id by lia. lia.
    + rewrite Z2Nat.id by lia. lia.
    + intros i Hi. apply Hfail. lia.
Qed.

End BackoffProofs.

(** The retry test with the shipped delay of one second: two failures,
    so pauses of one and of two seconds. *)
Lemma fetchWithRetry_linear_backoff_witness :
  2 * (slept (@fetchWithRetry Scenario.registryEnv Scenario.client
                "http://registry.test/test-package" Scenario.emptyWorld).2
       - slept Scenario.emptyWorld)
  = RetryDelay (retryConfig Scenario.client) * Z.of_nat 2 * (Z.of_nat 2 + 1).
Proof.
  apply (proj1 (@fetchWithRetry_linear_backoff Scenario.registryEnv Scenario.client
                  "http://registry.test/test-package" Scenario.emptyWorld
                  ltac:(by vm_compute) ltac:(by vm_compute) ltac:(by vm_compute))
           2%nat Scenario.testPackage).
  - by vm_compute.
  - intros [|[|i]] Hi; [| | lia];
      exists (ZapError "http_error" "HTTP 503: " None);
      apply (@retried_status Scenario.registryEnv 503); lia.
  - apply (@decoded_ok Scenario.registryEnv 200); [lia | reflexivity].
Defined.

Section RegistryEdges.
Context `{registry.Env}.

Lemma pickVersion_no_keys vc constraint :
  pickVersion vc constraint []
  = Err (ErrorString ("no version found matching constraint " +:+ vc)).
Proof. reflexivity. Qed.

Lemma versionKeys_zeroMetadata : versionKeys zeroMetadata = [].
Proof. unfold versionKeys. simpl. by rewrite map_to_list_empty. Qed.

(** X3.  A retry count below zero makes the loop of [fetchWithRetry] run
    no turn at all: the fetch reports success with empty metadata and
    sends nothing, so that every version asked for is reported missing
    and no latest version is found, the registry never having been
    asked. *)
Theorem GetPackageMetadata_negative_retries (c : RegistryClient) (name : string) (w : World) :
  MaxRetries (retryConfig c) < 0 ->
  GetPackageMetadata c name w = (Ok zeroMetadata, w)
  /\ (forall versionConstraint,
         exists err, GetPackageVersion c name versionConstraint w = (Err err, w))
  /\ GetLatestVersion c name w
     = (Err (ZapError "latest_version_not_found"
               ("latest version not found for package " +:+ name) None), w).
Proof.
  intros Hneg.
  assert (Hmeta : forall w0, GetPackageMetadata c name w0 = (Ok zeroMetadata, w0)).
  { intros w0. unfold GetPackageMetadata, fetchWithRetry.
    by replace (Z.to_nat (MaxRetries (retryConfig c) + 1)) with 0%nat by lia. }
  split; [apply Hmeta |]. split.
  - intros vc. unfold GetPackageVersion, resolveVersion, bind, wrapping.
    destruct (isExactVersion vc).
    + unfold ret. rewrite Hmeta. simpl. rewrite lookup_empty. eauto.
    + rewrite Hmeta.
      destruct (semver_NewConstraint vc) as [k|e]; [| eauto].
      rewrite versionKeys_zeroMetadata, pickVersion_no_keys. eauto.
  - unfold GetLatestVersion, bind. rewrite Hmeta. simpl. by rewrite lookup_empty.
Qed.

(** X4.  When every attempt of a metadata fetch is answered by a
    failure, [GetPackageMetadata] returns an error of the kind recorded
    for the last attempt ([rate_limited], [http_error], [parse_error], or
    [unknown] for an error of the transport), whose text carries both
    the name of the package and what the last attempt said. *)
Theorem GetPackageMetadata_error_kind (c : RegistryClient) (name : string) (w : World)
    (last : error) :
  0 <= MaxRetries (retryConfig c) ->
  (forall i, Z.of_nat i < MaxRetries (retryConfig c) ->
             exists err, retried (reply_at (requests w) (baseURL c +:+ "/" +:+ name) i) err) ->
  retried (reply_at (requests w) (baseURL c +:+ "/" +:+ name)
             (Z.to_nat (MaxRetries (retryConfig c)))) last ->
  exists err w',
    GetPackageMetadata c name w = (Err err, w')
    /\ errorKind err = errorKind last
    /\ GoStrings.Contains (errors.Error err) ("failed to fetch metadata for package " +:+ name)
    /\ GoStrings.Contains (errors.Error err) (errorMessage last).
Proof.
  intros Hmax Hfail Hlast.
  destruct (fetchAttempts_exhausted c (baseURL c +:+ "/" +:+ name)
              (Z.to_nat (MaxRetries (retryConfig c))) 0 None w last)
    as (w' & Hrun & _ & _); [| exact Hlast |].
  { intros i Hi. apply Hfail. lia. }
  unfold GetPackageMetadata, fetchWithRetry.
  replace (Z.to_nat (MaxRetries (retryConfig c) + 1))
    with (S (Z.to_nat (MaxRetries (retryConfig c)))) by lia.
  rewrite Hrun.
  exists (errors.Wrap last ("failed to fetch metadata for package " +:+ name)), w'.
  split; [done |].
  set (msg := "failed to fetch metadata for package " +:+ name).
  destruct last as [text | prefix inner | t m [cause|]]; simpl.
  - split; [done |]. split.
    + exists "unknown: ", (" (" +:+ text +:+ ")"). by rewrite ?string_app_assoc.
    + exists ("unknown: " +:+ msg +:+ " ("), ")". by rewrite ?string_app_assoc.
  - split; [done |]. split.
    + exists "unknown: ", (" (" +:+ prefix +:+ errors.Error inner +:+ ")").
      by rewrite ?string_app_assoc.
    + exists ("unknown: " +:+ msg +:+ " ("), ")". by rewrite ?string_app_assoc.
  - split; [done |]. split.
    + exists (t +:+ ": "), (": " +:+ m +:+ " (" +:+ errors.Error cause +:+ ")").
      by rewrite ?string_app_assoc.
    + exists (t +:+ ": " +:+ msg +:+ ": "), (" (" +:+ errors.Error cause +:+ ")").
      by rewrite ?string_app_assoc.
  - split; [done |]. split.
    + exists (t +:+ ": "), (": " +:+ m). by rewrite ?string_app_assoc.
    + exists (t +:+ ": " +:+ msg +:+ ": "), "".
      by rewrite ?string_app_assoc, string_app_nil_r.
Qed.

(** X5.  [GetLatestVersion] reads the [latest] tag from one fetch of the
    metadata and the entry from a later one.  Without the tag it fails
    with [latest_version_not_found] and looks no further (it does not
    fall back on the highest version); with a tag that is an exact
    version it returns the entry the later metadata has under the tag,
    or [version_not_found]. *)
Theorem GetLatestVersion_follows_tag (c : RegistryClient) (name : string) (w w1 : World)
    (metadata : PackageMetadata) :
  GetPackageMetadata c name w = (Ok metadata, w1) ->
  (DistTags metadata !! "latest" = None ->
   GetLatestVersion c name w
   = (Err (ZapError "latest_version_not_found"
             ("latest version not found for package " +:+ name) None), w1))
  /\ (forall tag metadata' w2,
         DistTags metadata !! "latest" = Some tag ->
         isExactVersion tag = true ->
         GetPackageMetadata c name w1 = (Ok metadata', w2) ->
         GetLatestVersion c name w
         = (match Versions metadata' !! tag with
            | Some versionInfo => Ok versionInfo
            | None => Err (ZapError "version_not_found"
                             ("version " +:+ tag +:+ " not found for package " +:+ name)
                             None)
            end, w2)).
Proof.
  intros Hmeta. unfold GetLatestVersion, bind. rewrite Hmeta. split.
  - by intros ->.
  - intros tag metadata' w2 -> Hexact Hmeta'.
    unfold GetPackageVersion, resolveVersion, bind. rewrite Hexact. unfold ret.
    rewrite Hmeta'. by destruct (Versions metadata' !! tag).
Qed.

(** X6.  An exact version with white space around it is taken for exact
    and handed on as it is, white space and all; looked up in metadata
    whose keys all parse as versions, it is never found. *)
Theorem GetPackageVersion_padded_exact (c : RegistryClient) (name version : string)
    (w w1 : World) (metadata : PackageMetadata) :
  SemverSyntax ->
  isExactVersion version = true ->
  GoStrings.TrimSpace version <> version ->
  GetPackageMetadata c name w = (Ok metadata, w1) ->
  forallb (fun key => is_Ok (semver_NewVersion key)) (versionKeys metadata) = true ->
  GetPackageVersion c name version w
  = (Err (ZapError "version_not_found"
            ("version " +:+ version +:+ " not found for package " +:+ name) None), w1).
Proof.
  intros Hsyntax Hexact Hpadded Hmeta Hkeys.
  unfold GetPackageVersion, resolveVersion, bind. rewrite Hexact. unfold ret.
  rewrite Hmeta.
  destruct (Versions metadata !! version) as [vi|] eqn:Hfound; [| done].
  exfalso. apply Hpadded.
  assert (Hin : version ∈ versionKeys metadata) by (apply versionKeys_elem; eauto).
  rewrite forallb_forall in Hkeys. apply list_elem_of_In, Hkeys in Hin.
  destruct (semver_NewVersion version) as [v|] eqn:Hparse; [| done].
  by apply (Hsyntax version v).
Qed.

Lemma GetLatestVersion_registry_only c name w :
  registry_only w (GetLatestVersion c name w).2.
Proof.
  unfold GetLatestVersion, bind.
  pose proof (GetPackageMetadata_registry_only c name w) as Hmeta.
  destruct (GetPackageMetadata c name w) as [[metadata|e] w1]; [| done].
  destruct (DistTags metadata !! "latest") as [tag|]; [| done].
  eapply registry_only_trans; [exact Hmeta | apply GetPackageVersion_registry_only].
Qed.

(** X7.  Whatever the servers answer, the operations of the registry
    client leave the files of the cache as they are and ask for no
    archive. *)
Theorem registry_client_leaves_cache (c : RegistryClient) (name versionConstraint : string)
    (w : World) :
  registry_only w (GetPackageMetadata c name w).2
  /\ registry_only w (resolveVersion c name versionConstraint w).2
  /\ registry_only w (GetPackageVersion c name versionConstraint w).2
  /\ registry_only w (GetLatestVersion c name w).2.
Proof.
  split; [apply GetPackageMetadata_registry_only |].
  split; [apply resolveVersion_registry_only |].
  split; [apply GetPackageVersion_registry_only | apply GetLatestVersion_registry_only].
Qed.

End RegistryEdges.

(** A client with the retry count -1 finds nothing and asks nothing. *)
Lemma GetPackageMetadata_negative_retries_witness :
  @GetPackageMetadata Scenario.registryEnv Scenario.hastyClient "express" Scenario.emptyWorld
  = (Ok zeroMetadata, Scenario.emptyWorld)
  /\ (forall versionConstraint,
         exists err,
           @GetPackageVersion Scenario.registryEnv Scenario.hastyClient "express"
             versionConstraint Scenario.emptyWorld
           = (Err err, Scenario.emptyWorld))
  /\ @GetLatestVersion Scenario.registryEnv Scenario.hastyClient "express" Scenario.emptyWorld
     = (Err (ZapError "latest_version_not_found"
               ("latest version not found for package " +:+ "express") None),
        Scenario.emptyWorld).
Proof.
  apply (@GetPackageMetadata_negative_retries Scenario.registryEnv Scenario.hastyClient
           "express" Scenario.emptyWorld).
  by vm_compute.
Defined.

(** The rate-limited package of the metadata test. *)
Lemma GetPackageMetadata_error_kind_witness :
  exists err w',
    @GetPackageMetadata Scenario.registryEnv Scenario.client "ratelimit" Scenario.emptyWorld
    = (Err err, w')
    /\ errorKind err
       = errorKind (ZapError "rate_limited" "too many requests to registry" None)
    /\ GoStrings.Contains (errors.Error err)
         ("failed to fetch metadata for package " +:+ "ratelimit")
    /\ GoStrings.Contains (errors.Error err)
         (errorMessage (ZapError "rate_limited" "too many requests to registry" None)).
Proof.
  apply (@GetPackageMetadata_error_kind Scenario.registryEnv Scenario.client "ratelimit"
           Scenario.emptyWorld).
  - by vm_compute.
  - intros i Hi. exists (ZapError "rate_limited" "too many requests to registry" None).
    destruct i as [|[|[|i]]]; [apply retried_rate_limited.. |].
    exfalso. revert Hi. change (MaxRetries (retryConfig Scenario.client)) with 3. lia.
  - apply retried_rate_limited.
Defined.

(** The latest version of express. *)
Lemma GetLatestVersion_follows_tag_witness :
  @GetLatestVersion Scenario.registryEnv Scenario.client "express" Scenario.emptyWorld
  = (match Versions Scenario.express !! "4.17.1" with
     | Some versionInfo => Ok versionInfo
     | None => Err (ZapError "version_not_found"
                      ("version " +:+ "4.17.1" +:+ " not found for package " +:+ "express")
                      None)
     end,
     record_request (RegistryGet "http://registry.test/express")
       (record_request (RegistryGet "http://registry.test/express") Scenario.emptyWorld)).
Proof.
  apply (proj2 (@GetLatestVersion_follows_tag Scenario.registryEnv Scenario.client "express"
                  Scenario.emptyWorld
                  (record_request (RegistryGet "http://registry.test/express")
                     Scenario.emptyWorld)
                  Scenario.express ltac:(by vm_compute))
           "4.17.1" Scenario.express).
  - by vm_compute.
  - by vm_compute.
  - by vm_compute.
Defined.

(** The padded version of the exact-version test is not found. *)
Lemma GetPackageVersion_padded_exact_witness :
  @GetPackageVersion Scenario.registryEnv Scenario.client "express" " 4.17.1 "
    Scenario.emptyWorld
  = (Err (ZapError "version_not_found"
            ("version " +:+ " 4.17.1 " +:+ " not found for package " +:+ "express") None),
     record_request (RegistryGet "http://registry.test/express") Scenario.emptyWorld).
Proof.
  apply (@GetPackageVersion_padded_exact Scenario.registryEnv Scenario.client "express"
           " 4.17.1 " Scenario.emptyWorld _ Scenario.express).
  - apply Reference_syntax.
  - by vm_compute.
  - by vm_compute.
  - by vm_compute.
  - by vm_compute.
Defined.

(* ===================================================================== *)
(** ** Single-package downloads: what a call changes *)
(* ===================================================================== *)

Section DownloaderCoverage.
Context `{registry.Env} `{downloader.Env}.

(** [DownloadPackage] by its three stages. *)
Lemma DownloadPackage_unfold dm name version opts w :
  DownloadPackage dm name version opts w
  = match GetPackageVersion (registry dm) name version w with
    | (Err e, w1) => (Err (WrapError "failed to get package metadata: " e), w1)
    | (Ok versionInfo, w1) =>
        match (if UseCache opts
               then cacheLookup dm name version (registry.Shasum (Dist versionInfo)) w1
               else (Ok None, w1)) with
        | (Err e, w2) => (Err e, w2)
        | (Ok (Some cachedPath), w2) =>
            (Ok {| PackageName := name; Version := version; Path := cachedPath;
                   Shasum := registry.Shasum (Dist versionInfo); Error := None |}, w2)
        | (Ok None, w2) =>
            match downloadFile dm (Tarball (Dist versionInfo)) (cachePath dm name version)
                    (registry.Shasum (Dist versionInfo)) (ShowProgress opts) w2 with
            | (Ok _, w3) => (Ok (resultFor dm name version versionInfo), w3)
            | (Err e, w3) => (Err e, w3)
            end
        end
    end.
Proof.
  unfold DownloadPackage, bind, wrapping, ret. rewrite targetPath_cachePath.
  unfold resultFor, cachePath.
  destruct (GetPackageVersion (registry dm) name version w) as [[vi|e] w1]; [| done].
  destruct (UseCache opts).
  - destruct (cacheLookup dm name version _ w1) as [[[p|]|e] w2]; [done | | done].
    by destruct (downloadFile dm _ _ _ _ w2) as [[[]|e] w3].
  - by destruct (downloadFile dm _ _ _ _ w1) as [[[]|e] w3].
Qed.

Lemma checkCache_frame dm name version expectedShasum w path :
  path <> cachePath dm name version ->
  fs (checkCache dm name version expectedShasum w).2 !! path = fs w !! path.
Proof.
  unfold cachePath, checkCache, os_Stat, os_ReadFile. intros Hne.
  destruct (fs w !! Filepath.Join _); [| done].
  destruct (os_fault w _); [done |].
  case_decide; [| done]. simpl. apply lookup_delete_ne. congruence.
Qed.

Lemma cacheLookup_frame dm name version expectedShasum w path :
  path <> cachePath dm name version ->
  fs (cacheLookup dm name version expectedShasum w).2 !! path = fs w !! path.
Proof.
  intros Hne. pose proof (checkCache_frame dm name version expectedShasum w path Hne) as Hc.
  unfold cacheLookup.
  by destruct (checkCache dm name version expectedShasum w) as [[[p []] [e|]] w'].
Qed.

Lemma cacheLookup_requests dm name version expectedShasum w :
  requests (cacheLookup dm name version expectedShasum w).2 = requests w.
Proof.
  pose proof (checkCache_requests dm name version expectedShasum w) as Hc.
  unfold cacheLookup.
  by destruct (checkCache dm name version expectedShasum w) as [[[p []] [e|]] w'].
Qed.

Lemma downloadFile_frame dm url targetPath expectedShasum showProgress w path :
  path <> targetPath ->
  fs (downloadFile dm url targetPath expectedShasum showProgress w).2 !! path = fs w !! path.
Proof.
  intros Hne. assert (targetPath <> path) by congruence.
  unfold downloadFile, bind, wrapping, os_MkdirAll, os_Create, io_Copy.
  destruct (os_fault w (OpMkdirAll _)); [done |].
  destruct (os_fault w (OpCreate _)); [done |].
  destruct (http_NewRequest url); simpl; [by rewrite lookup_insert_ne |].
  destruct (client_Do (requests w) url) as [err | code status body bodyErr]; simpl;
    [by rewrite lookup_insert_ne |].
  case_decide; simpl; [by rewrite lookup_insert_ne |].
  destruct (os_fault _ (OpWrite targetPath)); simpl;
    [by rewrite lookup_delete_ne, lookup_insert_ne |].
  destruct bodyErr; simpl; [by rewrite lookup_delete_ne, !lookup_insert_ne |].
  case_decide; simpl; [by rewrite lookup_delete_ne, !lookup_insert_ne |].
  by rewrite !lookup_insert_ne.
Qed.

Lemma downloadFile_tarball dm url targetPath expectedShasum showProgress w :
  tarball_requests (downloadFile dm url targetPath expectedShasum showProgress w).2
  = tarball_requests w
  \/ tarball_requests (downloadFile dm url targetPath expectedShasum showProgress w).2
     = tarball_requests w ++ [TarballGet url].
Proof.
  unfold downloadFile, bind, wrapping, os_MkdirAll, os_Create, io_Copy.
  destruct (os_fault w (OpMkdirAll _)); [by left |].
  destruct (os_fault w (OpCreate _)); [by left |].
  destruct (http_NewRequest url); [by left |].
  right. unfold tarball_requests. simpl.
  destruct (client_Do (requests w) url) as [err | code status body bodyErr]; simpl;
    [by rewrite List.filter_app |].
  case_decide; simpl; [by rewrite List.filter_app |].
  destruct (os_fault _ (OpWrite targetPath)); simpl; [by rewrite List.filter_app |].
  destruct bodyErr; simpl; [by rewrite List.filter_app |].
  case_decide; simpl; by rewrite List.filter_app.
Qed.

(** No call of [DownloadPackage] touches a file other than the archive
    of the package. *)
Lemma DownloadPackage_frame dm name version opts w path :
  path <> cachePath dm name version ->
  fs (DownloadPackage dm name version opts w).2 !! path = fs w !! path.
Proof.
  intros Hne. rewrite DownloadPackage_unfold.
  pose proof (GetPackageVersion_registry_only (registry dm) name version w) as [Hfs _].
  destruct (GetPackageVersion (registry dm) name version w) as [[vi|e] w1];
    simpl in Hfs; [| simpl; by rewrite Hfs].
  assert (Hdl : forall w2, fs w2 !! path = fs w !! path ->
    fs (match downloadFile dm (Tarball (Dist vi)) (cachePath dm name version)
                (registry.Shasum (Dist vi)) (ShowProgress opts) w2 with
        | (Ok _, w3) => (Ok (resultFor dm name version vi), w3)
        | (Err e, w3) => (Err e, w3)
        end).2 !! path = fs w !! path).
  { intros w2 <-.
    pose proof (downloadFile_frame dm (Tarball (Dist vi)) (cachePath dm name version)
                  (registry.Shasum (Dist vi)) (ShowProgress opts) w2 path Hne) as Hd.
    by destruct (downloadFile dm _ _ _ _ w2) as [[[]|e] w3]. }
  destruct (UseCache opts); [| apply Hdl; by rewrite Hfs].
  pose proof (cacheLookup_frame dm name version (registry.Shasum (Dist vi)) w1 path Hne) as Hc.
  destruct (cacheLookup dm name version _ w1) as [[[p|]|e] w2]; simpl in Hc.
  - simpl. by rewrite Hc, Hfs.
  - apply Hdl. by rewrite Hc, Hfs.
  - simpl. by rewrite Hc, Hfs.
Qed.

(** A call asks for at most one archive, the one the registry names. *)
Lemma DownloadPackage_tarball dm name version opts w :
  tarball_requests (DownloadPackage dm name version opts w).2 = tarball_requests w
  \/ exists versionInfo w1,
       GetPackageVersion (registry dm) name version w = (Ok versionInfo, w1)
       /\ tarball_requests (DownloadPackage dm name version opts w).2
          = tarball_requests w ++ [TarballGet (Tarball (Dist versionInfo))].
Proof.
  rewrite DownloadPackage_unfold.
  pose proof (GetPackageVersion_registry_only (registry dm) name version w) as [_ Htar].
  destruct (GetPackageVersion (registry dm) name version w) as [[vi|e] w1];
    simpl in Htar; [| by left].
  assert (Hdl : forall w2, tarball_requests w2 = tarball_requests w ->
    let out := (match downloadFile dm (Tarball (Dist vi)) (cachePath dm name version)
                        (registry.Shasum (Dist vi)) (ShowProgress opts) w2 with
                | (Ok _, w3) => (Ok (resultFor dm name version vi), w3)
                | (Err e, w3) => (Err e, w3)
                end) in
    tarball_requests out.2 = tarball_requests w
    \/ exists versionInfo w1',
         (Ok vi, w1) = (Ok versionInfo, w1')
         /\ tarball_requests out.2
            = tarball_requests w ++ [TarballGet (Tarball (Dist versionInfo))]).
  { intros w2 Hw2. simpl.
    destruct (downloadFile_tarball dm (Tarball (Dist vi)) (cachePath dm name version)
                (registry.Shasum (Dist vi)) (ShowProgress opts) w2) as [Hd | Hd];
      destruct (downloadFile dm _ _ _ _ w2) as [[[]|e] w3]; simpl in *;
      rewrite Hw2 in Hd; eauto. }
  destruct (UseCache opts); [| by apply Hdl].
  pose proof (cacheLookup_requests dm name version (registry.Shasum (Dist vi)) w1) as Hc.
  assert (Hc' : tarball_requests (cacheLookup dm name version
                                    (registry.Shasum (Dist vi)) w1).2 = tarball_requests w).
  { unfold tarball_requests. by rewrite Hc. }
  destruct (cacheLookup dm name version _ w1) as [[[p|]|e] w2]; simpl in Hc'.
  - by left.
  - by apply Hdl.
  - by left.
Qed.









End DownloaderCoverage.





(* ===================================================================== *)
(** ** The worker pool: every dependency once *)
(* ===================================================================== *)

Section LedgerProofs.
Context `{registry.Env} `{downloader.Env}.
Variables (dm : DownloadManager) (opts : DownloadOptions) (semCap chanCap : nat).
Variable deps : list (string * string).
Variable w : World.

Lemma ledger_init : ledger dm deps w (pool_init deps w) [].
Proof.
  split; simpl; try done.
  - by rewrite !app_nil_r.
  - exists []. by rewrite app_nil_r.
Qed.

(** A goroutine that holds a slot is none of those that have a result. *)
Lemma ledger_distinct p failedDeps i dep r :
  NoDup (archivePath dm <$> deps) ->
  waiting p ++ running p ++ (resultKey <$> resultsChan p) ++ failedDeps ≡ₚ deps ->
  running p !! i = Some dep ->
  r ∈ resultsChan p ->
  archivePath dm (resultKey r) <> archivePath dm dep.
Proof.
  intros Hnodup Hall Hdep Hr Heq.
  rewrite <- Hall in Hnodup. rewrite !fmap_app in Hnodup.
  apply NoDup_app in Hnodup as (_ & _ & Hnodup).
  apply NoDup_app in Hnodup as (_ & Hdisjoint & _).
  apply (Hdisjoint (archivePath dm dep)).
  - apply list_elem_of_fmap_2. by eapply list_elem_of_lookup_2.
  - apply elem_of_app. left. rewrite <- Heq.
    apply list_elem_of_fmap_2. by apply list_elem_of_fmap_2.
Qed.

Lemma ledger_step p p' failedDeps :
  pool_step dm opts semCap chanCap p p' ->
  ledger dm deps w p failedDeps ->
  exists failedDeps', ledger dm deps w p' failedDeps'.
Proof.
  intros [ev Hfire] [Hfailed Hall Hpaths Hframe Htransfers Hverified].
  destruct ev as [i | i]; simpl in Hfire.
  - destruct (waiting p !! i) as [dep|] eqn:Hdep; [| done].
    case_decide as Hfree; [| done]. injection Hfire as <-.
    exists failedDeps. split; simpl; try done.
    pose proof (delete_Permutation _ _ _ Hdep) as Hrest. revert Hrest.
    generalize (delete i (waiting p)). intros rest Hrest.
    rewrite <- Hall, Hrest. solve_Permutation.
  - destruct (running p !! i) as [[name version]|] eqn:Hdep; [| done].
    assert (Hin : (name, version) ∈ deps).
    { rewrite <- Hall. apply elem_of_app. right. apply elem_of_app. left.
      by eapply list_elem_of_lookup_2. }
    assert (Hframe' : forall path,
      (forall dep, dep ∈ deps -> path <> archivePath dm dep) ->
      fs (DownloadPackage dm name version opts (world p)).2 !! path = fs w !! path).
    { intros path Hpath. rewrite DownloadPackage_frame; [by apply Hframe |].
      apply (Hpath (name, version) Hin). }
    assert (Htransfers' : exists more,
      tarball_requests (DownloadPackage dm name version opts (world p)).2
      = tarball_requests w ++ more
      /\ (length more <= S (length (resultsChan p) + length (errorsChan p)))%nat).
    { destruct Htransfers as (more & Hmore & Hlen).
      destruct (DownloadPackage_tarball dm name version opts (world p))
        as [Hsame | (vi & w1 & _ & Hone)].
      - exists more. split; [by rewrite Hsame | lia].
      - exists (more ++ [TarballGet (Tarball (Dist vi))]). split.
        + by rewrite Hone, Hmore, app_assoc.
        + rewrite length_app. simpl. lia. }
    assert (Hkept : NoDup (archivePath dm <$> deps) ->
      Forall (verified (DownloadPackage dm name version opts (world p)).2) (resultsChan p)).
    { intros Hnodup. specialize (Hverified Hnodup).
      rewrite Forall_forall in Hverified, Hpaths. apply Forall_forall. intros r Hr.
      destruct (Hverified r Hr) as (content & Hfile & Hsum).
      exists content. split; [| done]. rewrite <- Hfile.
      apply DownloadPackage_frame. rewrite (Hpaths r Hr).
      apply (ledger_distinct p failedDeps i (name, version) r Hnodup Hall Hdep Hr). }
    assert (Hrest : running p ≡ₚ (name, version) :: delete i (running p))
      by (by apply delete_Permutation).
    destruct (DownloadPackage dm name version opts (world p)) as [[r|e] w'] eqn:Hdl.
    + case_decide as Hroom; [| done]. injection Hfire as <-.
      pose proof Hdl as Hok.
      apply DownloadPackage_ok in Hok as (vi & w1 & _ & Hr & Hfile & _).
      exists failedDeps. split; simpl.
      * done.
      * subst r. rewrite fmap_app. simpl. unfold resultKey at 2. simpl.
        revert Hrest. generalize (delete i (running p)). intros rest Hrest.
        rewrite <- Hall, Hrest. solve_Permutation.
      * apply Forall_app_2; [done |]. apply Forall_cons. split; [| done]. by subst r.
      * done.
      * destruct Htransfers' as (more & Hmore & Hlen). exists more. split; [done |].
        rewrite length_app. simpl. lia.
      * intros Hnodup. apply Forall_app_2; [by apply Hkept |].
        apply Forall_cons. split; [| done]. subst r. exact Hfile.
    + case_decide as Hroom; [| done]. injection Hfire as <-.
      exists (failedDeps ++ [(name, version)]). split; simpl.
      * rewrite !length_app. simpl. lia.
      * revert Hrest. generalize (delete i (running p)). intros rest Hrest.
        rewrite <- Hall, Hrest. solve_Permutation.
      * done.
      * done.
      * destruct Htransfers' as (more & Hmore & Hlen). exists more. split; [done |].
        rewrite length_app. simpl. lia.
      * done.
Qed.

End LedgerProofs.

Section DependencyCoverage.
Context `{registry.Env} `{downloader.Env}.

Lemma ledger_reachable dm opts semCap chanCap deps w p :
  rtc (pool_step dm opts semCap chanCap) (pool_init deps w) p ->
  exists failedDeps, ledger dm deps w p failedDeps.
Proof.
  intros Hreach.
  eapply (rtc_ind_r (fun p => exists failedDeps, ledger dm deps w p failedDeps));
    [exists []; apply ledger_init | | exact Hreach].
  intros p1 p2 _ Hstep [failedDeps Hledger]. by eapply ledger_step.
Qed.

(** What a call returns once the registry has named the dependencies,
    by the books of its pool. *)
Lemma DownloadDependencies_ledger dm name version opts w versionInfo w1 results err w' :
  GetPackageVersion (registry dm) name version w = (Ok versionInfo, w1) ->
  DownloadDependencies dm name version opts w (results, err) w' ->
  exists p failedDeps,
    ledger dm (map_to_list (Dependencies versionInfo)) w1 p failedDeps
    /\ waiting p = [] /\ running p = []
    /\ results = resultsChan p /\ w' = world p
    /\ (err = None <-> errorsChan p = []).
Proof.
  intros Hget Hdd.
  inversion Hdd as [e w2 Hget' | vi w2 Hget' Hnone | vi w2 p Hget' Hsome Hrun Hdone Hcollect];
    subst; rewrite Hget in Hget'; [done | |].
  - injection Hget' as <- <-.
    exists (pool_init (map_to_list (Dependencies versionInfo)) w1), [].
    split; [apply ledger_init |].
    apply map_size_empty_inv in Hnone. rewrite Hnone, map_to_list_empty. by simpl.
  - injection Hget' as <- <-.
    apply ledger_reachable in Hrun as [failedDeps Hledger].
    exists p, failedDeps. destruct Hdone as [Hw Hr].
    split; [done |]. split; [done |]. split; [done |].
    unfold collect in Hcollect.
    by destruct (errorsChan p) eqn:Herrs; injection Hcollect as <- <-.
Qed.

(** X13.  [DownloadDependencies] downloads every dependency once: the
    results it returns are each for a dependency of the version, no two
    for the same one, and together with the dependencies whose download
    failed they are all the dependencies; the error returned is [nil]
    exactly when none failed. *)
Theorem DownloadDependencies_each_once (dm : DownloadManager) (name version : string)
    (opts : DownloadOptions) (w w1 w' : World) (versionInfo : VersionInfo)
    (results : list DownloadResult) (err : option error) :
  GetPackageVersion (registry dm) name version w = (Ok versionInfo, w1) ->
  DownloadDependencies dm name version opts w (results, err) w' ->
  exists failedDeps,
    (resultKey <$> results) ++ failedDeps ≡ₚ map_to_list (Dependencies versionInfo)
    /\ (err = None <-> failedDeps = [])
    /\ NoDup (resultKey <$> results)
    /\ forall r, r ∈ results ->
                 Dependencies versionInfo !! PackageName r = Some (Version r).
Proof.
  intros Hget Hdd.
  destruct (DownloadDependencies_ledger _ _ _ _ _ _ _ _ _ _ Hget Hdd)
    as (p & failedDeps & [Hfailed Hall _ _ _ _] & Hw & Hr & -> & -> & Herr).
  rewrite Hw, Hr in Hall. simpl in Hall.
  exists failedDeps. split; [done |]. split; [| split].
  - rewrite Herr. split.
    + intros Hnil. rewrite Hnil in Hfailed. by apply nil_length_inv.
    + intros Hnil. rewrite Hnil in Hfailed. by apply nil_length_inv.
  - pose proof (NoDup_map_to_list (Dependencies versionInfo)) as Hnodup.
    rewrite <- Hall in Hnodup. by apply NoDup_app in Hnodup as (? & _ & _).
  - intros r Hr'. apply elem_of_map_to_list. rewrite <- Hall.
    apply elem_of_app. left. by apply (list_elem_of_fmap_2 resultKey).
Qed.



End DependencyCoverage.


(** The application: cookie is downloaded, the unknown package fails. *)
Lemma DownloadDependencies_each_once_witness :
  exists failedDeps,
    (resultKey <$> [Scenario.cookieResult]) ++ failedDeps
    ≡ₚ map_to_list (Dependencies Scenario.appInfo)
    /\ (Some (combinedError [Scenario.missingError]) = None <-> failedDeps = [])
    /\ NoDup (resultKey <$> [Scenario.cookieResult])
    /\ forall r, r ∈ [Scenario.cookieResult] ->
                 Dependencies Scenario.appInfo !! PackageName r = Some (Version r).
Proof.
  destruct app_partial_failure as [w' Hrun].
  apply (@DownloadDependencies_each_once Scenario.registryEnv Scenario.downloaderEnv
           Scenario.dm "app" "1.0.0" Scenario.useCache Scenario.emptyWorld
           (record_request (RegistryGet "http://registry.test/app") Scenario.emptyWorld)
           w' Scenario.appInfo [Scenario.cookieResult]
           (Some (combinedError [Scenario.missingError]))
           ltac:(vm_compute; reflexivity) Hrun).
Defined.



(* ===================================================================== *)
(** ** The progress bar *)
(* ===================================================================== *)

Lemma wrap64_idemp a b : wrap64 (wrap64 a + b) = wrap64 (a + b).
Proof.
  unfold wrap64. f_equal.
  replace ((a + 2 ^ 63) mod 2 ^ 64 - 2 ^ 63 + b + 2 ^ 63)
    with ((a + 2 ^ 63) mod 2 ^ 64 + b) by lia.
  rewrite Zplus_mod_idemp_l. f_equal. lia.
Qed.

Lemma Add_comm bar x y : progress.Add (progress.Add bar x) y
                         = progress.Add (progress.Add bar y) x.
Proof.
  unfold progress.Add. simpl. f_equal. rewrite !wrap64_idemp. f_equal. lia.
Qed.

Lemma bytesRead_nonneg outs : 0 <= bytesRead outs.
Proof. induction outs as [|out outs IH]; simpl; lia. Qed.

Lemma sumZ_nonneg ns : Forall (fun n => 0 <= n) ns -> 0 <= sumZ ns.
Proof. induction 1; simpl; lia. Qed.

(** X16.  Reading through a [ProgressReader] changes nothing for the
    one who reads: every [Read] returns the bytes and the error of the
    reader underneath, which moves on as it would alone.  Meanwhile the
    bar has counted every byte (as long as the count fits an [int64]),
    keeps its total, and is switched off by the first [io.EOF] and by
    nothing else. *)
Theorem ProgressReader_counts (S : Type) (reader : progress.Reader S) (sizes : list nat) :
  forall (s : S) (bar : progress.ProgressBar),
    0 <= progress.Current bar ->
    progress.Current bar + bytesRead (readAll reader s sizes).1 < 2 ^ 63 ->
    exists bar',
      readAll (progress.ProgressReader_Read reader) (s, bar) sizes
      = ((readAll reader s sizes).1, ((readAll reader s sizes).2, bar'))
      /\ progress.Current bar'
         = progress.Current bar + bytesRead (readAll reader s sizes).1
      /\ progress.total bar' = progress.total bar
      /\ progress.active bar'
         = progress.active bar && negb (sawEOF (readAll reader s sizes).1).
Proof.
  induction sizes as [|bufSize rest IH]; intros s bar Hpos Hfits.
  - simpl. exists bar. split; [done |]. split; [unfold progress.Current; lia |].
    split; [done |]. by rewrite andb_true_r.
  - cbn [readAll] in Hfits |- *. unfold progress.ProgressReader_Read at 1.
    destruct (reader s bufSize) as [[data err] s1] eqn:Hread.
    set (n := Z.of_nat (String.length data)).
    set (bar1 := if decide (0 < n) then progress.Add bar n else bar).
    set (bar2 := match err with progress.EOF => progress.Finish bar1 | _ => bar1 end).
    specialize (IH s1 bar2).
    destruct (readAll reader s1 rest) as [outs s2] eqn:Hrest. simpl in Hfits, IH |- *.
    pose proof (bytesRead_nonneg outs) as Houts.
    assert (Hn : 0 <= n) by (unfold n; lia).
    assert (Hcur1 : progress.current bar1 = progress.current bar + n).
    { unfold bar1. case_decide; simpl.
      - apply wrap64_small. unfold progress.Current in *. fold n in Hfits. lia.
      - lia. }
    assert (Hcur2 : progress.current bar2 = progress.current bar + n).
    { unfold bar2. by destruct err. }
    assert (Htot : progress.total bar2 = progress.total bar).
    { unfold bar2, bar1. destruct err; case_decide; done. }
    assert (Hact : progress.active bar2
                   = progress.active bar
                     && negb (match err with progress.EOF => true | _ => false end)).
    { unfold bar2, bar1. destruct err; case_decide; simpl;
        by rewrite ?andb_true_r, ?andb_false_r. }
    unfold progress.Current in *. fold n in Hfits.
    destruct IH as (bar' & Hrun & Hcur & Htot' & Hact'); [lia | lia |].
    exists bar'. rewrite Hrun. split; [done |].
    split; [fold n; lia |]. split; [congruence |].
    rewrite Hact', Hact. by rewrite negb_orb, andb_assoc.
Qed.

(** X17.  Amounts added to a bar by goroutines running side by side
    come to the same whatever the order the additions take effect in;
    and amounts that are not negative add up to their sum, as long as the
    count fits an [int64]. *)
Theorem Add_any_order (bar : progress.ProgressBar) (ns ms : list Z) :
  ns ≡ₚ ms ->
  Forall (fun n => 0 <= n) ns ->
  0 <= progress.Current bar ->
  progress.Current bar + sumZ ns < 2 ^ 63 ->
  foldl progress.Add bar ns = foldl progress.Add bar ms
  /\ progress.Current (foldl progress.Add bar ms) = progress.Current bar + sumZ ns.
Proof.
  intros Hperm Hnonneg Hpos Hfits. split.
  - clear Hnonneg Hpos Hfits. revert bar.
    induction Hperm as [| x l l' _ IH | x y l | l l' l'' _ IH1 _ IH2]; intros bar; simpl.
    + done.
    + apply IH.
    + by rewrite Add_comm.
    + by rewrite IH1.
  - assert (Hsum : forall l b, Forall (fun n => 0 <= n) l ->
              0 <= progress.Current b -> progress.Current b + sumZ l < 2 ^ 63 ->
              progress.Current (foldl progress.Add b l) = progress.Current b + sumZ l).
    { clear. induction l as [|n l IH]; intros b Hl Hb Hfits; simpl in *; [lia |].
      apply Forall_cons in Hl as [Hn Hl].
      pose proof (sumZ_nonneg l Hl).
      assert (Hcur : progress.Current (progress.Add b n) = progress.Current b + n).
      { unfold progress.Current in *. simpl. apply wrap64_small. lia. }
      rewrite IH; [lia | done | lia | lia]. }
    assert (Hms : sumZ ms = sumZ ns).
    { clear -Hperm. induction Hperm; simpl; lia. }
    rewrite <- Hms. apply Hsum; [by rewrite <- Hperm | done | lia].
Qed.

(** Twelve bytes read in three reads and a read at the end. *)
Lemma ProgressReader_counts_witness :
  exists bar',
    readAll (progress.ProgressReader_Read Reference.stringsReader)
      ("test content", progress.NewProgressBar 12) [5; 5; 5; 5]%nat
    = ((readAll Reference.stringsReader "test content" [5; 5; 5; 5]%nat).1,
       ((readAll Reference.stringsReader "test content" [5; 5; 5; 5]%nat).2, bar'))
    /\ progress.Current bar'
       = progress.Current (progress.NewProgressBar 12)
         + bytesRead (readAll Reference.stringsReader "test content" [5; 5; 5; 5]%nat).1
    /\ progress.total bar' = progress.total (progress.NewProgressBar 12)
    /\ progress.active bar'
       = progress.active (progress.NewProgressBar 12)
         && negb (sawEOF (readAll Reference.stringsReader "test content"
                            [5; 5; 5; 5]%nat).1).
Proof.
  apply (ProgressReader_counts string Reference.stringsReader [5; 5; 5; 5]%nat
           "test content" (progress.NewProgressBar 12)).
  - by vm_compute.
  - by vm_compute.
Defined.

(** Three goroutines adding ten, twenty and thirty. *)
Lemma Add_any_order_witness :
  foldl progress.Add (progress.NewProgressBar 1000) [10; 20; 30]
  = foldl progress.Add (progress.NewProgressBar 1000) [30; 10; 20]
  /\ progress.Current (foldl progress.Add (progress.NewProgressBar 1000) [30; 10; 20])
     = progress.Current (progress.NewProgressBar 1000) + sumZ [10; 20; 30].
Proof.
  apply (Add_any_order (progress.NewProgressBar 1000) [10; 20; 30] [30; 10; 20]).
  - solve_Permutation.
  - repeat constructor; lia.
  - by vm_compute.
  - by vm_compute.
Defined.

(* ===================================================================== *)
(** ** The commands: package arguments *)
(* ===================================================================== *)

Lemma Split_nonempty s sep : exists piece pieces, GoStrings.Split s sep = piece :: pieces.
Proof.
  induction s as [|a s (piece & pieces & IH)]; simpl; [by eauto |].
  case_decide; [by eauto |]. rewrite IH. eauto.
Qed.

Lemma Split_no_sep s sep : hasByte sep s = false -> GoStrings.Split s sep = [s].
Proof.
  induction s as [|a s IH]; simpl; [done |].
  case_decide; [done |]. intros Hs. by rewrite IH.
Qed.

Lemma Split_sep s sep rest :
  hasByte sep s = false ->
  GoStrings.Split (s +:+ String sep rest) sep = s :: GoStrings.Split rest sep.
Proof.
  induction s as [|a s IH]; intros Hs.
  - change ("" +:+ String sep rest) with (String sep rest). simpl.
    by rewrite decide_True.
  - change (String a s +:+ String sep rest) with (String a (s +:+ String sep rest)).
    simpl in Hs |- *. case_decide; [done |]. by rewrite IH.
Qed.

(** X18.  [parsePackageArg] takes an argument [name@version] apart
    where neither part has an [@] in it; an argument without [@] is a
    name with no version; and what follows a second [@] is dropped
    without a word. *)
Theorem parsePackageArg_round_trip (name version : string) :
  hasByte "@" name = false ->
  hasByte "@" version = false ->
  commands.parsePackageArg (name +:+ "@" +:+ version) = (name, version)
  /\ commands.parsePackageArg name = (name, "")
  /\ forall rest,
       commands.parsePackageArg (name +:+ "@" +:+ version +:+ "@" +:+ rest) = (name, version).
Proof.
  intros Hname Hversion. unfold commands.parsePackageArg. split; [| split].
  - change (name +:+ "@" +:+ version) with (name +:+ String "@" version).
    by rewrite (Split_sep name "@" version Hname), (Split_no_sep version "@" Hversion).
  - by rewrite (Split_no_sep name "@" Hname).
  - intros rest.
    change (name +:+ "@" +:+ version +:+ "@" +:+ rest)
      with (name +:+ String "@" (version +:+ String "@" rest)).
    by rewrite (Split_sep name "@" _ Hname), (Split_sep version "@" rest Hversion).
Qed.

(** X19.  An argument that begins with [@], as the name of a scoped
    package does, is read as a package with the empty name: what
    follows the [@], up to the next one, is taken for the version. *)
Theorem parsePackageArg_scoped (rest : string) :
  commands.parsePackageArg (String "@" rest) = ("", (commands.parsePackageArg rest).1).
Proof.
  unfold commands.parsePackageArg. simpl.
  destruct (Split_nonempty rest "@") as (piece & pieces & ->).
  by destruct pieces.
Qed.

(** express@4.17.1 *)
Lemma parsePackageArg_round_trip_witness :
  commands.parsePackageArg ("express" +:+ "@" +:+ "4.17.1") = ("express", "4.17.1")
  /\ commands.parsePackageArg "express" = ("express", "")
  /\ forall rest,
       commands.parsePackageArg ("express" +:+ "@" +:+ "4.17.1" +:+ "@" +:+ rest)
       = ("express", "4.17.1").
Proof.
  apply (parsePackageArg_round_trip "express" "4.17.1"); by vm_compute.
Defined.

(* ===================================================================== *)
(** ** The commands: download and verify *)
(* ===================================================================== *)

Section CommandProofs.
Context `{registry.Env} `{downloader.Env} `{commands.Env}.





End CommandProofs.





(* ===================================================================== *)
(** ** Package [errors] *)
(* ===================================================================== *)

Lemma Join_cons_nonempty e rest sep :
  rest <> [] -> GoStrings.Join (e :: rest) sep = e +:+ sep +:+ GoStrings.Join rest sep.
Proof. by destruct rest. Qed.

(** X23.  However often an error is wrapped with [errors.Wrap], the
    result is one [ZapError] and not a chain: it has the kind and the
    cause of the error wrapped first, and as message the messages given,
    the last one in front, separated by a colon, and then the message of
    the first error when that was a [ZapError]. *)
Theorem Wrap_accumulates (err : error) (messages : list string) :
  messages <> [] ->
  foldl errors.Wrap err messages
  = ZapError (errorKind err)
             (GoStrings.Join (rev messages ++ ownMessage err) ": ")
             (errorCause err).
Proof.
  induction messages as [|message messages IH] using rev_ind; [done |]. intros _.
  rewrite foldl_app, rev_app_distr. cbn [foldl app rev].
  destruct messages as [|m0 messages0].
  - simpl. by destruct err as [text | prefix inner | t m cause].
  - rewrite IH by done. simpl errors.Wrap. f_equal.
    rewrite Join_cons_nonempty; [done |].
    intros Hnil. apply app_eq_nil in Hnil as [Hnil _].
    apply (f_equal length) in Hnil. by rewrite length_rev in Hnil.
Qed.

(** The error of a rate-limited fetch, wrapped twice. *)
Lemma Wrap_accumulates_witness :
  foldl errors.Wrap (ZapError "rate_limited" "too many requests to registry" None)
        ["failed to fetch metadata for package express"; "failed to resolve version"]
  = ZapError (errorKind (ZapError "rate_limited" "too many requests to registry" None))
      (GoStrings.Join
         (rev ["failed to fetch metadata for package express"; "failed to resolve version"]
            ++ ownMessage (ZapError "rate_limited" "too many requests to registry" None))
         ": ")
      (errorCause (ZapError "rate_limited" "too many requests to registry" None)).
Proof.
  apply (Wrap_accumulates (ZapError "rate_limited" "too many requests to registry" None)
           ["failed to fetch metadata for package express"; "failed to resolve version"]).
  discriminate.
Defined.

(* ===================================================================== *)
(** ** Patterns and the strings they match *)
(* ===================================================================== *)

Lemma string_app_nil_inv s1 s2 : "" = s1 +:+ s2 -> s1 = "" /\ s2 = "".
Proof. by destruct s1. Qed.

Lemma string_app_cons_inv a s s1 s2 :
  String a s = s1 +:+ s2 ->
  (s1 = "" /\ s2 = String a s) \/ exists s1', s1 = String a s1' /\ s = s1' +:+ s2.
Proof.
  destruct s1 as [|b s1']; [by left |].
  change (String b s1' +:+ s2) with (String b (s1' +:+ s2)).
  intros [= -> ->]. right. by exists s1'.
Qed.

Lemma nullable_Matches r : regexp.nullable r = true <-> Matches r "".
Proof.
  induction r as [| | ranges | r1 IH1 r2 IH2 | r1 IH1 r2 IH2 | r1 IH1]; simpl.
  - done.
  - done.
  - split; [done | by intros (a & [=] & _)].
  - rewrite andb_true_iff, IH1, IH2. split.
    + intros [H1 H2]. by exists "", "".
    + intros (s1 & s2 & Happ & H1 & H2).
      by apply string_app_nil_inv in Happ as [-> ->].
  - by rewrite orb_true_iff, IH1, IH2.
  - split; [| done]. intros _. by exists [].
Qed.

Lemma derive_Matches a r : forall s, Matches (regexp.derive a r) s <-> Matches r (String a s).
Proof.
  induction r as [| | ranges | r1 IH1 r2 IH2 | r1 IH1 r2 IH2 | r1 IH1]; intros s; simpl.
  - done.
  - done.
  - destruct (regexp.in_class ranges a) eqn:Hclass; simpl.
    + split; [intros ->; by exists a | by intros (b & [= _ ->] & _)].
    + split; [done |]. intros (b & [= <- _] & Hb). congruence.
  - assert (Hleft : (exists s1 s2, s = s1 +:+ s2 /\ Matches (regexp.derive a r1) s1
                                   /\ Matches r2 s2)
                    <-> exists s1 s2, String a s = s1 +:+ s2 /\ s1 <> ""
                                      /\ Matches r1 s1 /\ Matches r2 s2).
    { split.
      - intros (s1 & s2 & -> & H1 & H2). exists (String a s1), s2.
        split; [done |]. split; [done |]. split; [by apply IH1 | done].
      - intros (s1 & s2 & Happ & Hne & H1 & H2).
        apply string_app_cons_inv in Happ as [[-> _] | (s1' & -> & ->)]; [done |].
        exists s1', s2. split; [done |]. split; [by apply IH1 | done]. }
    destruct (regexp.nullable r1) eqn:Hnull; simpl.
    + rewrite Hleft, IH2. split.
      * intros [(s1 & s2 & Happ & _ & H1 & H2) | H2]; [by exists s1, s2 |].
        exists "", (String a s). split; [done |]. split; [by apply nullable_Matches | done].
      * intros (s1 & s2 & Happ & H1 & H2).
        destruct s1 as [|b s1']; [right; by rewrite Happ | left].
        exists (String b s1'), s2. by repeat split.
    + rewrite Hleft. split.
      * intros (s1 & s2 & Happ & _ & H1 & H2). by exists s1, s2.
      * intros (s1 & s2 & Happ & H1 & H2). exists s1, s2.
        split; [done |]. split; [| done].
        intros ->. apply nullable_Matches in H1. congruence.
  - by rewrite IH1, IH2.
  - split.
    + intros (s1 & s2 & -> & H1 & pieces & -> & Hall).
      exists (String a s1 :: pieces). split; [done |].
      apply Forall_cons. split; [by apply IH1 | done].
    + intros (pieces & Happ & Hall).
      induction Hall as [|piece pieces Hpiece Hall IH]; [done |].
      simpl in Happ.
      apply string_app_cons_inv in Happ as [[-> Happ] | (s1' & -> & ->)];
        [by apply IH |].
      exists s1', (concatAll pieces). split; [done |]. split; [by apply IH1 |].
      by exists pieces.
Qed.

(** The matcher accepts the strings the pattern stands for. *)
Lemma MatchString_Matches r s : regexp.MatchString r s = true <-> Matches r s.
Proof.
  revert r. induction s as [|a s IH]; intros r; simpl.
  - apply nullable_Matches.
  - by rewrite IH, derive_Matches.
Qed.

Lemma in_class_one a b : regexp.in_class [(a, a)] b = true <-> b = a.
Proof.
  unfold regexp.in_class, regexp.in_range. simpl.
  rewrite orb_false_r, andb_true_iff, !Nat.leb_le. split.
  - intros [H1 H2]. rewrite <- (ascii_nat_embedding a), <- (ascii_nat_embedding b).
    f_equal. lia.
  - intros ->. lia.
Qed.

Lemma in_class_two a b x : regexp.in_class [(a, a); (b, b)] x = true -> x = a \/ x = b.
Proof.
  unfold regexp.in_class. cbn [existsb]. rewrite orb_false_r, orb_true_iff.
  intros [Hx | Hx]; [left | right]; apply in_class_one; unfold regexp.in_class;
    cbn [existsb]; by rewrite orb_false_r.
Qed.

Lemma Matches_Literal t s : Matches (regexp.Literal t) s <-> s = t.
Proof.
  revert s. induction t as [|a t IH]; intros s; simpl; [done |]. split.
  - intros (s1 & s2 & -> & (b & -> & Hb) & H2).
    apply in_class_one in Hb as ->. apply IH in H2 as ->. done.
  - intros ->. exists (String a ""), t. split; [done |].
    split; [exists a; split; [done | by apply in_class_one] | by apply IH].
Qed.

Lemma Matches_Star_class ranges s :
  Matches (regexp.Star (regexp.CharClass ranges)) s
  <-> allBytes (regexp.in_class ranges) s = true.
Proof.
  simpl. split.
  - intros (pieces & -> & Hall).
    induction Hall as [|piece pieces (a & -> & Ha) _ IH]; [done |].
    change (allBytes (regexp.in_class ranges) (String a (concatAll pieces)) = true).
    simpl. by rewrite Ha, IH.
  - revert s. induction s as [|a s IH]; simpl; [intros _; by exists [] |].
    intros [Ha Hs]%andb_true_iff. destruct (IH Hs) as (pieces & -> & Hall).
    exists (String a "" :: pieces). split; [done |].
    apply Forall_cons. split; [by exists a | done].
Qed.

Lemma Matches_Plus_class ranges s :
  Matches (regexp.Plus (regexp.CharClass ranges)) s
  <-> s <> "" /\ allBytes (regexp.in_class ranges) s = true.
Proof.
  unfold regexp.Plus.
  change (Matches (regexp.Concat (regexp.CharClass ranges)
                     (regexp.Star (regexp.CharClass ranges))) s)
    with (exists s1 s2, s = s1 +:+ s2
                        /\ (exists a, s1 = String a "" /\ regexp.in_class ranges a = true)
                        /\ Matches (regexp.Star (regexp.CharClass ranges)) s2).
  split.
  - intros (s1 & s2 & -> & (a & -> & Ha) & H2). apply Matches_Star_class in H2.
    split; [done |].
    change (allBytes (regexp.in_class ranges) (String a s2) = true).
    simpl. by rewrite Ha, H2.
  - intros [Hne Hall]. destruct s as [|a s]; [done |]. simpl in Hall.
    apply andb_true_iff in Hall as [Ha Hs].
    exists (String a ""), s. split; [done |].
    split; [by exists a | by apply Matches_Star_class].
Qed.

Lemma Seq_nil_inv s : Matches (regexp.Seq []) s -> s = "".
Proof. intros Hs. exact Hs. Qed.

Lemma Seq_cons_inv r rs s :
  Matches (regexp.Seq (r :: rs)) s ->
  exists s1 s2, s = s1 +:+ s2 /\ Matches r s1 /\ Matches (regexp.Seq rs) s2.
Proof. intros Hs. exact Hs. Qed.

Lemma Seq_one_inv r s : Matches (regexp.Seq [r]) s -> Matches r s.
Proof.
  intros (s1 & s2 & -> & H1 & H2)%Seq_cons_inv. apply Seq_nil_inv in H2 as ->.
  by rewrite string_app_nil_r.
Qed.

Lemma Seq_cons_intro r rs s1 s2 :
  Matches r s1 -> Matches (regexp.Seq rs) s2 -> Matches (regexp.Seq (r :: rs)) (s1 +:+ s2).
Proof. intros H1 H2. by exists s1, s2. Qed.

Lemma Seq_one_intro r s : Matches r s -> Matches (regexp.Seq [r]) s.
Proof. intros H1. exists s, "". by rewrite string_app_nil_r. Qed.

Lemma OneOf_cons_inv r rs s :
  Matches (regexp.OneOf (r :: rs)) s -> Matches r s \/ Matches (regexp.OneOf rs) s.
Proof. intros Hs. exact Hs. Qed.

Lemma OneOf_nil_inv s : Matches (regexp.OneOf []) s -> False.
Proof. intros Hs. exact Hs. Qed.

Lemma OneOf_here r rs s : Matches r s -> Matches (regexp.OneOf (r :: rs)) s.
Proof. intros Hs. by left. Qed.

Lemma OneOf_later r rs s : Matches (regexp.OneOf rs) s -> Matches (regexp.OneOf (r :: rs)) s.
Proof. intros Hs. by right. Qed.

Lemma Quest_inv r s : Matches (regexp.Quest r) s -> Matches r s \/ s = "".
Proof. intros Hs. exact Hs. Qed.

Lemma Quest_some r s : Matches r s -> Matches (regexp.Quest r) s.
Proof. intros Hs. by left. Qed.

Lemma Quest_none r : Matches (regexp.Quest r) "".
Proof. by right. Qed.

Lemma CharClass_inv ranges s :
  Matches (regexp.CharClass ranges) s ->
  exists a, s = String a "" /\ regexp.in_class ranges a = true.
Proof. intros Hs. exact Hs. Qed.

Lemma CharClass_intro ranges a :
  regexp.in_class ranges a = true -> Matches (regexp.CharClass ranges) (String a "").
Proof. intros Ha. by exists a. Qed.

Lemma Concat_inv r1 r2 s :
  Matches (regexp.Concat r1 r2) s ->
  exists s1 s2, s = s1 +:+ s2 /\ Matches r1 s1 /\ Matches r2 s2.
Proof. intros Hs. exact Hs. Qed.

Lemma Concat_intro r1 r2 s1 s2 :
  Matches r1 s1 -> Matches r2 s2 -> Matches (regexp.Concat r1 r2) (s1 +:+ s2).
Proof. intros H1 H2. by exists s1, s2. Qed.

Lemma allBytes_ext p q s : (forall a, p a = q a) -> allBytes p s = allBytes q s.
Proof. intros Hpq. induction s as [|a s IH]; simpl; [done |]. by rewrite Hpq, IH. Qed.

Lemma in_class_digit a : regexp.in_class [("0", "9")%char] a = isDigit a.
Proof. unfold regexp.in_class, regexp.in_range, isDigit. simpl. by rewrite orb_false_r. Qed.

Lemma Matches_digits s : Matches (regexp.Plus parser.digit) s <-> digits s.
Proof.
  unfold parser.digit, digits. rewrite Matches_Plus_class.
  by rewrite (allBytes_ext _ isDigit) by apply in_class_digit.
Qed.

Lemma Matches_triple s : Matches parser.triple s <-> tripleOf s.
Proof.
  unfold parser.triple, tripleOf. split.
  - intros (a & s1 & -> & Ha & H1)%Seq_cons_inv.
    apply Seq_cons_inv in H1 as (d1 & s2 & -> & Hd1 & H2).
    apply Seq_cons_inv in H2 as (b & s3 & -> & Hb & H3).
    apply Seq_cons_inv in H3 as (d2 & s4 & -> & Hd2 & Hc).
    apply Seq_one_inv in Hc.
    apply Matches_Literal in Hd1 as ->. apply Matches_Literal in Hd2 as ->.
    apply Matches_digits in Ha, Hb, Hc.
    by exists a, b, s4.
  - intros (a & b & c & -> & Ha & Hb & Hc).
    apply Matches_digits in Ha, Hb, Hc.
    apply Seq_cons_intro; [done |].
    apply (Seq_cons_intro _ _ "."); [by apply Matches_Literal |].
    apply Seq_cons_intro; [done |].
    apply (Seq_cons_intro _ _ "."); [by apply Matches_Literal |].
    by apply Seq_one_intro.
Qed.

Lemma in_class_not_newline a :
  regexp.in_class [(ascii_of_nat 0, ascii_of_nat 9); (ascii_of_nat 11, ascii_of_nat 255)] a
  = negb (bool_decide (a = "010"%char)).
Proof. by destruct a as [[] [] [] [] [] [] [] []]. Qed.

Lemma Matches_one_line s :
  Matches (regexp.Star regexp.AnyCharNotNL) s <-> hasByte "010" s = false.
Proof.
  unfold regexp.AnyCharNotNL. rewrite Matches_Star_class.
  induction s as [|a s IH]; [done |]. cbn [allBytes hasByte].
  rewrite in_class_not_newline, andb_true_iff, IH.
  case_decide as Ha.
  - rewrite bool_decide_eq_true_2 by done. simpl. split; [by intros [[=] _] | done].
  - rewrite bool_decide_eq_false_2 by done. simpl. tauto.
Qed.

(** *** [strings.TrimSpace] on a string that begins with a visible byte *)

Lemma strip_prefix_keeps_last a p : forall l rest,
  p <> [] -> last p <> Some a ->
  GoStrings.strip_prefix p (l ++ [a]) = Some rest -> exists l', rest = l' ++ [a].
Proof.
  induction p as [|b p IH]; intros l rest Hne Hlast Hstrip; [done |].
  destruct l as [|x l]; simpl in Hstrip.
  - case_decide as Hb; [| done]. subst b.
    destruct p as [|c p]; [done | done].
  - case_decide as Hb; [| done].
    destruct p as [|c p].
    + injection Hstrip as <-. by exists l.
    + apply (IH l rest); [done | | done]. by rewrite last_cons_cons in Hlast.
Qed.

Lemma drop_space_keeps_last a encs : forall l rest,
  Forall (fun p => p <> [] /\ last p <> Some a) encs ->
  GoStrings.drop_space encs (l ++ [a]) = Some rest -> exists l', rest = l' ++ [a].
Proof.
  induction encs as [|p encs IH]; intros l rest Hencs Hdrop; [done |].
  apply Forall_cons in Hencs as [[Hne Hlast] Hencs]. simpl in Hdrop.
  destruct (GoStrings.strip_prefix p (l ++ [a])) as [rest'|] eqn:Hstrip.
  - injection Hdrop as <-. by eapply strip_prefix_keeps_last.
  - by eapply IH.
Qed.

Lemma trim_left_keeps_last a encs n : forall l,
  Forall (fun p => p <> [] /\ last p <> Some a) encs ->
  exists l', GoStrings.trim_left encs n (l ++ [a]) = l' ++ [a].
Proof.
  induction n as [|n IH]; intros l Hencs; simpl; [by exists l |].
  destruct (GoStrings.drop_space encs (l ++ [a])) as [rest|] eqn:Hdrop; [| by exists l].
  destruct (drop_space_keeps_last a encs l rest Hencs Hdrop) as [l' ->].
  by apply IH.
Qed.

Lemma visible_not_space_prefix a l :
  visibleASCII a = true -> GoStrings.drop_space GoStrings.space_prefixes (a :: l) = None.
Proof.
  destruct a as [[] [] [] [] [] [] [] []]; intros Ha;
    first [discriminate Ha | reflexivity].
Qed.

Lemma visible_not_space_suffix a :
  visibleASCII a = true ->
  Forall (fun p => p <> [] /\ last p <> Some a) GoStrings.space_suffixes_rev.
Proof.
  destruct a as [[] [] [] [] [] [] [] []]; intros Ha;
    first [discriminate Ha | repeat (constructor; [by split |]); constructor].
Qed.

Lemma TrimSpace_visible a s :
  visibleASCII a = true -> GoStrings.TrimSpace (String a s) <> "".
Proof.
  intros Ha. unfold GoStrings.TrimSpace.
  change (list_ascii_of_string (String a s)) with (a :: list_ascii_of_string s).
  set (l := list_ascii_of_string s).
  assert (Hfront : GoStrings.trim_left GoStrings.space_prefixes (length (a :: l)) (a :: l)
                   = a :: l).
  { cbn [length GoStrings.trim_left]. by rewrite visible_not_space_prefix. }
  rewrite Hfront. change (rev (a :: l)) with (rev l ++ [a]).
  generalize (length (a :: l)). intros n.
  destruct (trim_left_keeps_last a GoStrings.space_suffixes_rev n (rev l)
              (visible_not_space_suffix a Ha)) as [l' ->].
  rewrite rev_app_distr. simpl. done.
Qed.

Lemma digits_visible s : digits s -> exists a rest, s = String a rest /\ visibleASCII a = true.
Proof.
  intros [Hne Hall]. destruct s as [|a rest]; [done |]. exists a, rest. split; [done |].
  simpl in Hall. apply andb_true_iff in Hall as [Ha _]. revert Ha.
  unfold isDigit, visibleASCII. rewrite !andb_true_iff, !Nat.leb_le. lia.
Qed.

Lemma acceptedDependency_visible v :
  acceptedDependency v -> exists a rest, v = String a rest /\ visibleASCII a = true.
Proof.
  intros [(op & t & Hop & (a & b & c & -> & Ha & _) & ->) | [-> | [-> | (rest & Hv & _)]]].
  - destruct (digits_visible a Ha) as (x & a' & -> & Hx).
    repeat (apply elem_of_cons in Hop as [-> | Hop]); [| | | | by apply elem_of_nil in Hop].
    + by exists x, (a' +:+ "." +:+ b +:+ "." +:+ c).
    + by eexists _, _.
    + by eexists _, _.
    + by eexists _, _.
  - by eexists _, _.
  - by eexists _, _.
  - destruct Hv as [-> | ->]; by eexists _, _.
Qed.

(** X24.  The versions [validateDependency] accepts for a dependency
    are these and no others: three runs of digits with dots between,
    bare or behind [^], [~] or [>=]; [latest]; [*]; and what begins with
    [file:] or [git+https://] and has no line feed in it.  Other ranges
    ([>1.2.3], [<2.0.0], [1.x], [1.2]) and prereleases are refused. *)
Theorem validateDependency_accepts (name version : string) :
  parser.validateDependency name version = None <-> acceptedDependency version.
Proof.
  unfold parser.validateDependency.
  assert (Hmatch : regexp.MatchString parser.dependencyRegexp version = true
                   <-> acceptedDependency version).
  { rewrite MatchString_Matches. unfold parser.dependencyRegexp, acceptedDependency.
    split.
    - intros [H1 | H]%OneOf_cons_inv; [| apply OneOf_cons_inv in H as [H2 | H];
        [| apply OneOf_cons_inv in H as [H3 | H];
        [| apply OneOf_cons_inv in H as [H4 | H];
        [| apply OneOf_cons_inv in H as [H5 | H];
        [| apply OneOf_cons_inv in H as [H6 | H];
        [| by apply OneOf_nil_inv in H]]]]]].
      + apply Seq_cons_inv in H1 as (op & t & -> & Hop & Ht).
        apply Seq_one_inv, Matches_triple in Ht.
        left. exists op, t. split; [| done].
        apply Quest_inv in Hop as [(a & -> & Ha)%CharClass_inv | ->]; [| by left].
        apply in_class_two in Ha as [-> | ->]; [right; by left | right; right; by left].
      + apply Matches_Literal in H2. right. by left.
      + apply CharClass_inv in H3 as (a & -> & Ha%in_class_one). subst a.
        right. right. by left.
      + apply Seq_cons_inv in H4 as (op & t & -> & ->%Matches_Literal & Ht).
        apply Seq_one_inv, Matches_triple in Ht.
        left. exists ">=", t. split; [| done]. do 3 right. by left.
      + apply Seq_cons_inv in H5 as (op & rest & -> & ->%Matches_Literal & Hrest).
        apply Seq_one_inv, Matches_one_line in Hrest.
        do 3 right. exists rest. split; [by left | done].
      + apply Seq_cons_inv in H6 as (op & rest & -> & ->%Matches_Literal & Hrest).
        apply Seq_one_inv, Matches_one_line in Hrest.
        do 3 right. exists rest. split; [by right | done].
    - intros [(op & t & Hop & Ht & ->) | [-> | [-> | (rest & Hv & Hrest)]]].
      + apply Matches_triple, Seq_one_intro in Ht.
        repeat (apply elem_of_cons in Hop as [-> | Hop]);
          [| | | | by apply elem_of_nil in Hop].
        * apply OneOf_here. apply (Seq_cons_intro _ _ ""); [apply Quest_none | done].
        * apply OneOf_here.
          apply (Seq_cons_intro _ _ "^"); [by apply Quest_some, CharClass_intro | done].
        * apply OneOf_here.
          apply (Seq_cons_intro _ _ "~"); [by apply Quest_some, CharClass_intro | done].
        * do 3 apply OneOf_later. apply OneOf_here.
          apply (Seq_cons_intro _ _ ">="); [by apply Matches_Literal | done].
      + apply OneOf_later, OneOf_here. by apply Matches_Literal.
      + do 2 apply OneOf_later. apply OneOf_here. by apply (CharClass_intro _ "*"%char).
      + apply Matches_one_line, Seq_one_intro in Hrest. destruct Hv as [-> | ->].
        * do 4 apply OneOf_later. apply OneOf_here.
          apply (Seq_cons_intro _ _ "file:"); [by apply Matches_Literal | done].
        * do 5 apply OneOf_later. apply OneOf_here.
          apply (Seq_cons_intro _ _ "git+https://"); [by apply Matches_Literal | done]. }
  split.
  - case_decide; [done |].
    destruct (regexp.MatchString parser.dependencyRegexp version) eqn:Hm; [| done].
    intros _. by apply Hmatch.
  - intros Hacc.
    destruct (acceptedDependency_visible version Hacc) as (a & rest & -> & Ha).
    rewrite decide_False by (by apply TrimSpace_visible).
    apply Hmatch in Hacc. by rewrite Hacc.
Qed.

(** *** Package names *)

Lemma in_class_nameStart a :
  regexp.in_class [("a", "z"); ("0", "9"); ("-", "-"); ("~", "~")]%char a = nameStart a.
Proof. by destruct a as [[] [] [] [] [] [] [] []]. Qed.

Lemma in_class_nameByte a :
  regexp.in_class [("a", "z"); ("0", "9"); ("-", "-"); (".", "."); ("_", "_");
                   ("~", "~")]%char a = nameByte a.
Proof. by destruct a as [[] [] [] [] [] [] [] []]. Qed.

Lemma in_class_scopeStart a :
  regexp.in_class [("a", "z"); ("0", "9"); ("-", "-"); ("*", "*"); ("~", "~")]%char a
  = scopeStart a.
Proof. by destruct a as [[] [] [] [] [] [] [] []]. Qed.

Lemma in_class_scopeByte a :
  regexp.in_class [("a", "z"); ("0", "9"); ("-", "-"); ("*", "*"); (".", ".");
                   ("_", "_"); ("~", "~")]%char a = scopeByte a.
Proof. by destruct a as [[] [] [] [] [] [] [] []]. Qed.

Lemma Matches_first_rest first rest p q s :
  (forall a, regexp.in_class first a = p a) ->
  (forall a, regexp.in_class rest a = q a) ->
  Matches (regexp.Seq [regexp.CharClass first; regexp.Star (regexp.CharClass rest)]) s
  <-> exists a tail, s = String a tail /\ p a = true /\ allBytes q tail = true.
Proof.
  intros Hp Hq. split.
  - intros (s1 & s2 & -> & (a & -> & Ha)%CharClass_inv & Htail)%Seq_cons_inv.
    apply Seq_one_inv, Matches_Star_class in Htail.
    exists a, s2. split; [done |]. by rewrite <- Hp, <- (allBytes_ext _ q _ Hq).
  - intros (a & tail & -> & Ha & Htail).
    apply (Seq_cons_intro _ _ (String a "") tail); [apply CharClass_intro; by rewrite Hp |].
    apply Seq_one_intro, Matches_Star_class. by rewrite (allBytes_ext _ q _ Hq).
Qed.

Lemma Matches_nameRegexp name :
  Matches parser.nameRegexp name
  <-> plainName name
      \/ exists scope pkg, name = "@" +:+ scope +:+ "/" +:+ pkg
                           /\ scopeName scope /\ plainName pkg.
Proof.
  unfold parser.nameRegexp, plainName, scopeName. split.
  - intros (q & pkg & -> & Hq & Hpkg)%Seq_cons_inv.
    apply (Matches_first_rest _ _ nameStart nameByte) in Hpkg;
      [| apply in_class_nameStart | apply in_class_nameByte].
    apply Quest_inv in Hq as [Hq | ->]; [| by left].
    right.
    apply Seq_cons_inv in Hq as (at_ & s1 & -> & ->%Matches_Literal & Hq).
    apply Seq_cons_inv in Hq as (s2 & s3 & -> & (a & -> & Ha)%CharClass_inv & Hq).
    apply Seq_cons_inv in Hq as (tail & s4 & -> & Htail%Matches_Star_class & Hq).
    apply Seq_one_inv, Matches_Literal in Hq as ->.
    exists (String a tail), pkg. split; [| split; [| done]].
    + change (String a "" +:+ tail +:+ "/") with (String a (tail +:+ "/")).
      change ("@" +:+ String a (tail +:+ "/")) with (String "@" (String a (tail +:+ "/"))).
      change ("@" +:+ String a tail +:+ "/" +:+ pkg)
        with (String "@" (String a (tail +:+ "/" +:+ pkg))).
      change (String "@" (String a (tail +:+ "/")) +:+ pkg)
        with (String "@" (String a ((tail +:+ "/") +:+ pkg))).
      by rewrite string_app_assoc.
    + exists a, tail. split; [done |].
      by rewrite <- in_class_scopeStart, <- (allBytes_ext _ scopeByte _ in_class_scopeByte).
  - intros [Hplain | (scope & pkg & -> & (a & tail & -> & Ha & Htail) & Hpkg)].
    + apply (Seq_cons_intro _ _ "" name); [apply Quest_none |].
      by apply (Matches_first_rest _ _ nameStart nameByte);
        [apply in_class_nameStart | apply in_class_nameByte |].
    + replace ("@" +:+ String a tail +:+ "/" +:+ pkg)
        with (("@" +:+ String a "" +:+ tail +:+ "/") +:+ pkg).
      2:{ change ("@" +:+ String a "" +:+ tail +:+ "/")
            with (String "@" (String a (tail +:+ "/"))).
          change (String "@" (String a (tail +:+ "/")) +:+ pkg)
            with (String "@" (String a ((tail +:+ "/") +:+ pkg))).
          by rewrite string_app_assoc. }
      apply Seq_cons_intro.
      * apply Quest_some.
        apply (Seq_cons_intro _ _ "@"); [by apply Matches_Literal |].
        apply (Seq_cons_intro _ _ (String a ""));
          [apply CharClass_intro; by rewrite in_class_scopeStart |].
        apply Seq_cons_intro;
          [apply Matches_Star_class;
           by rewrite (allBytes_ext _ scopeByte _ in_class_scopeByte) |].
        by apply Seq_one_intro, Matches_Literal.
      * by apply (Matches_first_rest _ _ nameStart nameByte);
          [apply in_class_nameStart | apply in_class_nameByte |].
Qed.

Lemma validateName_accepts_helper name :
  parser.validateName name = None -> acceptedName name.
Proof.
  unfold parser.validateName, acceptedName. rewrite <- Matches_nameRegexp.
  rewrite <- MatchString_Matches.
  case_decide; [done |]. case_decide; [done |].
  destruct (regexp.MatchString parser.nameRegexp name); [| done].
  intros _. split; [lia | done].
Qed.

(** X25.  The names [validateName] accepts are these and no others:
    names of 214 bytes at most that are a plain name (a small letter, a
    digit, [-] or [~], then any of these and [.] and [_]) or a scope and
    a plain name, [@scope/name], where the scope may have stars as well.
    Capital letters, blanks and a slash outside a scope are refused. *)
Theorem validateName_accepts (name : string) :
  parser.validateName name = None <-> acceptedName name.
Proof.
  split; [apply validateName_accepts_helper |].
  unfold parser.validateName, acceptedName. rewrite <- Matches_nameRegexp.
  rewrite <- MatchString_Matches.
  - intros [Hlen Hmatch]. rewrite Hmatch.
    assert (Hne : name <> "").
    { intros ->. by vm_compute in Hmatch. }
    rewrite decide_False by done. by rewrite decide_False by lia.
Qed.

Lemma nameByte_no_at rest : allBytes nameByte rest = true -> hasByte "@" rest = false.
Proof.
  induction rest as [|a rest IH]; simpl; [done |].
  intros [Ha Hrest]%andb_true_iff. case_decide as Hat; [by subst a | by apply IH].
Qed.

Lemma plainName_no_at name :
  plainName name -> hasByte "@" name = false /\ GoStrings.HasPrefix name "@" = false.
Proof.
  intros (a & rest & -> & Ha & Hrest). apply nameByte_no_at in Hrest.
  assert (Hat : a <> "@"%char) by (by intros ->).
  split.
  - simpl. by rewrite decide_False.
  - unfold GoStrings.HasPrefix. cbn [String.prefix].
    by destruct (ascii_dec "@" a) as [<- |].
Qed.

(** X26.  The download command and the validator do not agree on names:
    a plain name the validator accepts, followed by [@] and a version, is
    taken apart by [parsePackageArg] as it was put together; a scoped
    name the validator accepts is not, the name comes out empty. *)
Theorem validateName_parsePackageArg (name version : string) :
  parser.validateName name = None ->
  hasByte "@" version = false ->
  if GoStrings.HasPrefix name "@"
  then (commands.parsePackageArg (name +:+ "@" +:+ version)).1 = ""
  else commands.parsePackageArg (name +:+ "@" +:+ version) = (name, version).
Proof.
  intros [_ [Hplain | (scope & pkg & -> & _ & _)]]%validateName_accepts_helper Hversion.
  - destruct (plainName_no_at name Hplain) as [Hname ->].
    unfold commands.parsePackageArg.
    change (name +:+ "@" +:+ version) with (name +:+ String "@" version).
    by rewrite (Split_sep name "@" version Hname), (Split_no_sep version "@" Hversion).
  - assert (Hscoped : GoStrings.HasPrefix ("@" +:+ scope +:+ "/" +:+ pkg) "@" = true).
    { unfold GoStrings.HasPrefix.
      change ("@" +:+ scope +:+ "/" +:+ pkg) with (String "@" (scope +:+ "/" +:+ pkg)).
      generalize (scope +:+ "/" +:+ pkg). intros rest. by destruct rest. }
    rewrite Hscoped. unfold commands.parsePackageArg.
    change (("@" +:+ scope +:+ "/" +:+ pkg) +:+ "@" +:+ version)
      with (String "@" ((scope +:+ "/" +:+ pkg) +:+ "@" +:+ version)).
    simpl.
    destruct (Split_nonempty ((scope +:+ "/" +:+ pkg) +:+ "@" +:+ version) "@")
      as (piece & pieces & ->).
    by destruct pieces.
Qed.

(** *** Versions *)

Lemma in_class_nonzero a :
  regexp.in_class [("1", "9")%char] a = isDigit a && negb (bool_decide (a = "0"%char)).
Proof. by destruct a as [[] [] [] [] [] [] [] []]. Qed.

Lemma Matches_numeral s : Matches parser.numeral s <-> numeralString s.
Proof.
  unfold parser.numeral, numeralString. split.
  - intros [H0 | (s1 & s2 & -> & (a & -> & Ha)%CharClass_inv & Hrest)].
    + left. by apply Matches_Literal.
    + right. apply Matches_Star_class in Hrest.
      rewrite in_class_nonzero in Ha. apply andb_true_iff in Ha as [Hdigit Hnz].
      exists a, s2. split; [done |]. split; [done |].
      split; [by apply negb_true_iff, bool_decide_eq_false in Hnz |].
      by rewrite <- (allBytes_ext _ isDigit _ in_class_digit).
  - intros [-> | (a & rest & -> & Hdigit & Hnz & Hrest)].
    + left. by apply Matches_Literal.
    + right. apply (Concat_intro _ _ (String a "") rest).
      * apply CharClass_intro. rewrite in_class_nonzero, Hdigit.
        by rewrite bool_decide_eq_false_2.
      * apply Matches_Star_class.
        by rewrite (allBytes_ext _ isDigit _ in_class_digit).
Qed.

Lemma numeralString_nonempty s : numeralString s -> s <> "".
Proof. by intros [-> | (a & rest & -> & _)]. Qed.

(** X27.  A version [validateVersion] accepts begins with three numbers
    with dots between, none of them with a zero in front, and goes on, if
    at all, with [-] or [+]: [1.0], [v1.0.0] and [01.0.0] are refused.
    Three such numbers with dots between, and nothing after, are always
    accepted. *)
Theorem validateVersion_core (version : string) :
  (parser.validateVersion version = None ->
   exists major minor patch rest,
     version = major +:+ "." +:+ minor +:+ "." +:+ patch +:+ rest
     /\ numeralString major /\ numeralString minor /\ numeralString patch
     /\ (rest = "" \/ (exists tail, rest = "-" +:+ tail) \/ exists tail, rest = "+" +:+ tail))
  /\ (forall major minor patch,
         numeralString major -> numeralString minor -> numeralString patch ->
         version = major +:+ "." +:+ minor +:+ "." +:+ patch ->
         parser.validateVersion version = None).
Proof.
  unfold parser.validateVersion. split.
  - case_decide; [done |].
    destruct (regexp.MatchString parser.versionRegexp version) eqn:Hmatch; [| done].
    intros _. apply MatchString_Matches in Hmatch. unfold parser.versionRegexp in Hmatch.
    apply Seq_cons_inv in Hmatch as (major & s1 & -> & Hmajor%Matches_numeral & Hm).
    apply Seq_cons_inv in Hm as (d1 & s2 & -> & ->%Matches_Literal & Hm).
    apply Seq_cons_inv in Hm as (minor & s3 & -> & Hminor%Matches_numeral & Hm).
    apply Seq_cons_inv in Hm as (d2 & s4 & -> & ->%Matches_Literal & Hm).
    apply Seq_cons_inv in Hm as (patch & s5 & -> & Hpatch%Matches_numeral & Hm).
    apply Seq_cons_inv in Hm as (pre & s6 & -> & Hpre & Hbuild).
    apply Seq_one_inv in Hbuild.
    exists major, minor, patch, (pre +:+ s6).
    split; [done |]. split; [done |]. split; [done |]. split; [done |].
    apply Quest_inv in Hpre as [Hpre | ->].
    + right. left.
      apply Seq_cons_inv in Hpre as (dash & tail & -> & ->%Matches_Literal & _).
      exists (tail +:+ s6). by rewrite string_app_assoc.
    + apply Quest_inv in Hbuild as [Hbuild | ->]; [| by left].
      right. right.
      apply Seq_cons_inv in Hbuild as (plus & tail & -> & ->%Matches_Literal & _).
      by exists tail.
  - intros major minor patch Hmajor Hminor Hpatch ->.
    rewrite decide_False.
    2:{ apply numeralString_nonempty in Hmajor. by destruct major. }
    assert (Hmatch : regexp.MatchString parser.versionRegexp
                       (major +:+ "." +:+ minor +:+ "." +:+ patch) = true).
    { apply MatchString_Matches. unfold parser.versionRegexp.
      apply Matches_numeral in Hmajor, Hminor, Hpatch.
      apply Seq_cons_intro; [done |].
      apply (Seq_cons_intro _ _ "."); [by apply Matches_Literal |].
      apply Seq_cons_intro; [done |].
      apply (Seq_cons_intro _ _ "."); [by apply Matches_Literal |].
      rewrite <- (string_app_nil_r patch).
      apply Seq_cons_intro; [done |].
      apply (Seq_cons_intro _ _ "" ""); [apply Quest_none |].
      apply Seq_one_intro, Quest_none. }
    by rewrite Hmatch.
Qed.

(* ===================================================================== *)
(** ** package.json: reading, writing, and the init command *)
(* ===================================================================== *)

Section ParserProofs.
Context `{downloader.Env} `{parser.Env}.

(** [range] visits every entry of the map once, in some order. *)
Hypothesis range_visits_all : forall m, parser.range m ≡ₚ map_to_list m.

Lemma fieldError_nil field err : parser.fieldError field err = [] <-> err = None.
Proof. by destruct err. Qed.

Lemma flat_map_nil {A B} (f : A -> list B) l :
  flat_map f l = [] <-> forall x, x ∈ l -> f x = [].
Proof.
  induction l as [|x l IH]; simpl.
  - split; [by intros _ x ?%elem_of_nil | done].
  - split.
    + intros [Hx Hl]%app_eq_nil y [-> | Hy]%elem_of_cons; [done | by apply IH].
    + intros Hall. rewrite (Hall x) by (by left). simpl.
      apply IH. intros y Hy. apply Hall. by right.
Qed.

(** A package passes [Validate] when its name, its version and its
    dependencies do. *)
Lemma Validate_nil p :
  parser.Validate p = []
  <-> parser.validateName (parser.Name p) = None
      /\ parser.validateVersion (parser.Version p) = None
      /\ forall dep ver, parser.Dependencies p !! dep = Some ver ->
                         parser.validateDependency dep ver = None.
Proof.
  unfold parser.Validate. split.
  - intros [Hname [Hversion Hdeps]%app_eq_nil]%app_eq_nil.
    apply fieldError_nil in Hname, Hversion. split; [done |]. split; [done |].
    intros dep ver Hdep.
    apply (fieldError_nil ("dependencies." +:+ dep)).
    apply (proj1 (flat_map_nil _ _) Hdeps (dep, ver)).
    rewrite range_visits_all. by apply elem_of_map_to_list.
  - intros (Hname & Hversion & Hdeps). rewrite Hname, Hversion. simpl.
    apply flat_map_nil. intros [dep ver] Hdep. apply fieldError_nil. apply Hdeps.
    apply elem_of_map_to_list. by rewrite <- range_visits_all.
Qed.

Lemma Validate_name_first p e :
  parser.validateName (parser.Name p) = Some e ->
  exists rest, parser.Validate p
               = {| parser.Field := "name"; parser.Message := errors.Error e |} :: rest.
Proof. intros Hname. unfold parser.Validate. rewrite Hname. simpl. eauto. Qed.

Lemma Validate_version_next p e :
  parser.validateName (parser.Name p) = None ->
  parser.validateVersion (parser.Version p) = Some e ->
  exists rest, parser.Validate p
               = {| parser.Field := "version"; parser.Message := errors.Error e |} :: rest.
Proof.
  intros Hname Hversion. unfold parser.Validate. rewrite Hname, Hversion. simpl. eauto.
Qed.

(** X28.  [ParsePackageJSON] returns a package only when its name, its
    version and every entry of its dependencies pass their checks
    (nothing else is looked at, the development dependencies not
    either), in whatever order the dependencies are visited.  Of a
    package that fails several checks one is reported: that of the name
    before that of the version, and that before those of the
    dependencies. *)
Theorem ParsePackageJSON_validated (filename data : string) (w : World)
    (pkg : parser.PackageJSON) :
  os_ReadFile filename w = Ok data ->
  parser.json_Unmarshal data = Ok pkg ->
  (parser.ParsePackageJSON filename w = Ok pkg
   <-> parser.validateName (parser.Name pkg) = None
       /\ parser.validateVersion (parser.Version pkg) = None
       /\ forall dep ver, parser.Dependencies pkg !! dep = Some ver ->
                          parser.validateDependency dep ver = None)
  /\ (forall e, parser.validateName (parser.Name pkg) = Some e ->
                parser.ParsePackageJSON filename w
                = Err (errors.New parser.ErrInvalidPackageJSON (errors.Error e) None))
  /\ (forall e, parser.validateName (parser.Name pkg) = None ->
                parser.validateVersion (parser.Version pkg) = Some e ->
                parser.ParsePackageJSON filename w
                = Err (errors.New parser.ErrInvalidPackageJSON (errors.Error e) None)).
Proof.
  intros Hread Hjson. unfold parser.ParsePackageJSON. rewrite Hread, Hjson.
  split; [| split].
  - rewrite <- Validate_nil. by destruct (parser.Validate pkg).
  - intros e He. by destruct (Validate_name_first pkg e He) as [rest ->].
  - intros e Hname He. by destruct (Validate_version_next pkg e Hname He) as [rest ->].
Qed.

(** X29.  [WriteToFile] writes nothing when the package does not pass
    [Validate].  When it returns no error, the file holds what
    [json.MarshalIndent] made of the package and nothing else has
    changed; if [json.Unmarshal] makes the package of that again, and the
    file can be read, [ParsePackageJSON] gives the package back. *)
Theorem WriteToFile_round_trip (p : parser.PackageJSON) (filename : string) (w : World) :
  (parser.Validate p <> [] ->
   exists err, parser.WriteToFile p filename w = (Some err, w))
  /\ (forall w',
         parser.WriteToFile p filename w = (None, w') ->
         exists data,
           parser.json_MarshalIndent p = Ok data
           /\ fs w' = <[filename := data]> (fs w)
           /\ requests w' = requests w
           /\ (parser.json_Unmarshal data = Ok p ->
               os_fault w' (OpReadFile filename) = None ->
               parser.ParsePackageJSON filename w' = Ok p)).
Proof.
  unfold parser.WriteToFile. split.
  - intros Hinvalid. destruct (parser.Validate p) as [|first rest]; [done | eauto].
  - intros w'. destruct (parser.Validate p) as [|first rest] eqn:Hvalid; [| done].
    destruct (parser.json_MarshalIndent p) as [data|e]; [| done].
    unfold parser.os_WriteFile, os_Create.
    destruct (os_fault w (OpCreate filename)); [done |].
    destruct (os_fault _ (OpWrite filename)); [done |].
    intros [= <-]. exists data. split; [done |].
    split; [simpl; by rewrite insert_insert_eq |]. split; [done |].
    intros Hjson Hread. unfold parser.ParsePackageJSON, os_ReadFile.
    rewrite Hread. simpl. rewrite lookup_insert_eq, Hjson. by rewrite Hvalid.
Qed.




End ParserProofs.

(** express@4.17.1 *)
Lemma validateName_parsePackageArg_witness :
  if GoStrings.HasPrefix "express" "@"
  then (commands.parsePackageArg ("express" +:+ "@" +:+ "4.17.1")).1 = ""
  else commands.parsePackageArg ("express" +:+ "@" +:+ "4.17.1") = ("express", "4.17.1").
Proof.
  apply (validateName_parsePackageArg "express" "4.17.1"); by vm_compute.
Defined.

(** The package of the parser test, read from its file. *)
Lemma ParsePackageJSON_validated_witness :
  @parser.ParsePackageJSON Scenario.downloaderEnv Scenario.parserEnv "package.json"
    (mkWorld {[ "package.json" := "{test-package}" ]} [] 0)
  = Ok Scenario.testPackageJSON.
Proof.
  apply (proj1 (@ParsePackageJSON_validated Scenario.downloaderEnv Scenario.parserEnv
                  (fun m => reflexivity _) "package.json" "{test-package}"
                  (mkWorld {[ "package.json" := "{test-package}" ]} [] 0)
                  Scenario.testPackageJSON ltac:(by vm_compute) ltac:(by vm_compute))).
  split; [by vm_compute |]. split; [by vm_compute |].
  intros dep ver Hdep. apply elem_of_map_to_list in Hdep.
  set (deps := map_to_list _) in Hdep. vm_compute in deps. subst deps.
  apply elem_of_cons in Hdep as [[= -> ->] | Hdep]; [by vm_compute |].
  by apply elem_of_nil in Hdep.
Defined.

(** The package of the parser test, written and read back. *)
Lemma WriteToFile_round_trip_witness :
  exists data,
    @parser.json_MarshalIndent Scenario.parserEnv Scenario.testPackageJSON = Ok data
    /\ fs (@parser.WriteToFile Scenario.downloaderEnv Scenario.parserEnv
             Scenario.testPackageJSON "test_package.json" Scenario.emptyWorld).2
       = <["test_package.json" := data]> (fs Scenario.emptyWorld)
    /\ requests (@parser.WriteToFile Scenario.downloaderEnv Scenario.parserEnv
                   Scenario.testPackageJSON "test_package.json" Scenario.emptyWorld).2
       = requests Scenario.emptyWorld
    /\ (@parser.json_Unmarshal Scenario.parserEnv data = Ok Scenario.testPackageJSON ->
        @os_fault Scenario.downloaderEnv
          (@parser.WriteToFile Scenario.downloaderEnv Scenario.parserEnv
             Scenario.testPackageJSON "test_package.json" Scenario.emptyWorld).2
          (OpReadFile "test_package.json") = None ->
        @parser.ParsePackageJSON Scenario.downloaderEnv Scenario.parserEnv
          "test_package.json"
          (@parser.WriteToFile Scenario.downloaderEnv Scenario.parserEnv
             Scenario.testPackageJSON "test_package.json" Scenario.emptyWorld).2
        = Ok Scenario.testPackageJSON).
Proof.
  apply (proj2 (@WriteToFile_round_trip Scenario.downloaderEnv Scenario.parserEnv
                  Scenario.testPackageJSON "test_package.json" Scenario.emptyWorld)).
  by vm_compute.
Defined.

